(** * DeepScent (Aether / Sensora): the front-end helpers and the result page

    A shallow embedding of

    - [frontend/src/lib/utils.ts]: the valence/arousal helpers
      ([getMoodLabel], [getScentFamilies]), the numeric helpers
      ([clamp], [lerp], [mapRange]), [formatPh], the storage helpers and
      [debounce] and [throttle];
    - the result page: its [sampleFormula] constant, the page state and
      [handleExport];
    - the renormalisation step of the formulation engine, whose sources
      are not part of the front end.

    A TypeScript [number] is an IEEE 754 binary64 value.  It is embedded as
    Rocq's primitive [float], whose operations are specified by [SpecFloat];
    the engine, described in exact terms by its documentation, is embedded
    over the rationals. *)

From Stdlib Require Import ZArith QArith Bool List String Lia ZifyBool.
From Stdlib Require Import Floats.
Import ListNotations.

#[local] Set Warnings "-inexact-float,-register-all".

(* ================================================================== *)
(** * Part I: definitions                                              *)
(* ================================================================== *)

(** ** IEEE 754 comparison keys

    [SFcompare] orders the non-NaN values lexicographically by sign class,
    exponent and mantissa.  [ord] makes that order explicit as a triple of
    integers, so that order facts about floats become linear arithmetic. *)
Module IEEE.

Definition ord (x : spec_float) : Z * Z * Z :=
  match x with
  | S754_nan => (0, 0, 0)
  | S754_infinity true => (-2, 0, 0)
  | S754_finite true m e => (-1, - e, Z.neg m)
  | S754_zero _ => (0, 0, 0)
  | S754_finite false m e => (1, e, Z.pos m)
  | S754_infinity false => (2, 0, 0)
  end%Z.

Definition lexcmp (a b : Z * Z * Z) : comparison :=
  let '(a1, a2, a3) := a in
  let '(b1, b2, b3) := b in
  match (a1 ?= b1)%Z with
  | Eq => match (a2 ?= b2)%Z with Eq => (a3 ?= b3)%Z | c => c end
  | c => c
  end.

Definition lexltb (a b : Z * Z * Z) : bool :=
  let '(a1, a2, a3) := a in
  let '(b1, b2, b3) := b in
  ((a1 <? b1) || ((a1 =? b1) && ((a2 <? b2) || ((a2 =? b2) && (a3 <? b3)))))%Z.

Definition lexeqb (a b : Z * Z * Z) : bool :=
  let '(a1, a2, a3) := a in
  let '(b1, b2, b3) := b in
  ((a1 =? b1) && (a2 =? b2) && (a3 =? b3))%Z.

Definition lexleb (a b : Z * Z * Z) : bool := lexltb a b || lexeqb a b.

(** The key of a number: [None] for NaN, the order triple otherwise. *)
Definition key (x : float) : option (Z * Z * Z) :=
  match Prim2SF x with
  | S754_nan => None
  | s => Some (ord s)
  end.

(** The same triple with the two zeros told apart ([-0] below [+0]): the
    order in which [Math.max] and [Math.min] choose. *)
Definition rord (x : spec_float) : Z * Z * Z :=
  match x with
  | S754_zero false => (0, 0, 1)
  | s => ord s
  end%Z.

Definition rkey (x : float) : option (Z * Z * Z) :=
  match Prim2SF x with
  | S754_nan => None
  | s => Some (rord s)
  end.

Definition keyLtb (a b : option (Z * Z * Z)) : bool :=
  match a, b with Some a, Some b => lexltb a b | _, _ => false end.

Definition keyLeb (a b : option (Z * Z * Z)) : bool :=
  match a, b with Some a, Some b => lexleb a b | _, _ => false end.

Definition keyEqb (a b : option (Z * Z * Z)) : bool :=
  match a, b with Some a, Some b => lexeqb a b | _, _ => false end.

(** Classes of specification floats. *)
Definition sfFinite (s : spec_float) : bool :=
  match s with S754_zero _ | S754_finite _ _ _ => true | _ => false end.

Definition sfZero (s : spec_float) : bool :=
  match s with S754_zero _ => true | _ => false end.

Definition sfNaN (s : spec_float) : bool :=
  match s with S754_nan => true | _ => false end.

(** Neither a zero nor NaN. *)
Definition sfNonzeroNumber (s : spec_float) : bool :=
  match s with S754_finite _ _ _ | S754_infinity _ => true | _ => false end.

End IEEE.

(** ** The JavaScript [Math] object (ECMAScript 21.3.2)

    [Math.max] and [Math.min] fold over their coerced arguments: a NaN
    argument makes the result NaN, and the two zeros are told apart
    ([+0] is the larger one). *)
Module Math.

Definition isPosZero (x : float) : bool :=
  match classify x with PZero => true | _ => false end.

Definition isNegZero (x : float) : bool :=
  match classify x with NZero => true | _ => false end.

Fixpoint maxLoop (highest : float) (coerced : list float) : float :=
  match coerced with
  | [] => highest
  | number :: rest =>
      if is_nan number then nan
      else
        let highest :=
          if isPosZero number && isNegZero highest then zero else highest in
        let highest := if (highest <? number)%float then number else highest in
        maxLoop highest rest
  end.

Definition max (args : list float) : float := maxLoop neg_infinity args.

Fixpoint minLoop (lowest : float) (coerced : list float) : float :=
  match coerced with
  | [] => lowest
  | number :: rest =>
      if is_nan number then nan
      else
        let lowest :=
          if isNegZero number && isPosZero lowest then neg_zero else lowest in
        let lowest := if (number <? lowest)%float then number else lowest in
        minLoop lowest rest
  end.

Definition min (args : list float) : float := minLoop infinity args.

End Math.

(** ** [frontend/src/lib/utils.ts] *)
Module Utils.

(** [a > b] and [a < b] on numbers. *)
Definition gt (a b : float) : bool := (b <? a)%float.
Definition lt (a b : float) : bool := (a <? b)%float.

(** [getMoodLabel(valence, arousal)] *)
Definition getMoodLabel (valence arousal : float) : string :=
  if gt valence 0.15 && gt arousal 0.15 then "Excited / Joyful"
  else if gt valence 0.15 && lt arousal (-0.15) then "Calm / Content"
  else if lt valence (-0.15) && gt arousal 0.15 then "Tense / Anxious"
  else if lt valence (-0.15) && lt arousal (-0.15) then "Melancholic / Sad"
  else "Neutral / Balanced".

(** [getScentFamilies(valence, arousal)] *)
Definition getScentFamilies (valence arousal : float) : list string :=
  if gt valence 0.15 && gt arousal 0.15 then
    ["Citrus"; "Fresh"; "Fruity"; "Sparkling"]%string
  else if gt valence 0.15 && lt arousal (-0.15) then
    ["Woody"; "Floral"; "Musky"; "Amber"]%string
  else if lt valence (-0.15) && gt arousal 0.15 then
    ["Herbal"; "Green"; "Aquatic"; "Aromatic"]%string
  else if lt valence (-0.15) && lt arousal (-0.15) then
    ["Resinous"; "Ambery"; "Earthy"; "Smoky"]%string
  else
    ["Woody"; "Aromatic"; "Floral"; "Balanced"]%string.

(** [clamp(value, min, max)] *)
Definition clamp (value min max : float) : float :=
  Math.min [Math.max [value; min]; max].

(** [lerp(start, end, t)] *)
Definition lerp (start end_ t : float) : float :=
  (start + (end_ - start) * t)%float.

(** [mapRange(value, inMin, inMax, outMin, outMax)] *)
Definition mapRange (value inMin inMax outMin outMax : float) : float :=
  (((value - inMin) * (outMax - outMin)) / (inMax - inMin) + outMin)%float.

(** The five quadrants of the valence/arousal plane, with the label and the
    family list that the two functions attach to each. *)
Inductive Quadrant : Type :=
  | HighHigh | HighLow | LowHigh | LowLow | Neutral.

Definition moodLabelOf (q : Quadrant) : string :=
  match q with
  | HighHigh => "Excited / Joyful"
  | HighLow => "Calm / Content"
  | LowHigh => "Tense / Anxious"
  | LowLow => "Melancholic / Sad"
  | Neutral => "Neutral / Balanced"
  end.

Definition scentFamiliesOf (q : Quadrant) : list string :=
  match q with
  | HighHigh => ["Citrus"; "Fresh"; "Fruity"; "Sparkling"]%string
  | HighLow => ["Woody"; "Floral"; "Musky"; "Amber"]%string
  | LowHigh => ["Herbal"; "Green"; "Aquatic"; "Aromatic"]%string
  | LowLow => ["Resinous"; "Ambery"; "Earthy"; "Smoky"]%string
  | Neutral => ["Woody"; "Aromatic"; "Floral"; "Balanced"]%string
  end.

(** The quadrant that the four tests shared by [getMoodLabel] and
    [getScentFamilies] select (a reading aid; the source repeats the tests
    in each function). *)
Definition quadrantOf (valence arousal : float) : Quadrant :=
  if gt valence 0.15 && gt arousal 0.15 then HighHigh
  else if gt valence 0.15 && lt arousal (-0.15) then HighLow
  else if lt valence (-0.15) && gt arousal 0.15 then LowHigh
  else if lt valence (-0.15) && lt arousal (-0.15) then LowLow
  else Neutral.

(** [x] lies in [[lo, hi]]. *)
Definition within (lo hi x : float) : bool :=
  ((lo <=? x) && (x <=? hi))%float.

(** The domain of a coordinate, and the central band of the thresholds. *)
Definition inUnit (x : float) : bool := within (-1) 1 x.
Definition inCentralBand (x : float) : bool := within (-0.15) 0.15 x.

(** The region of the valence/arousal plane that belongs to a quadrant:
    both coordinates beyond the thresholds on the named sides, or, for the
    neutral one, a coordinate in the central band. *)
Definition inRegion (q : Quadrant) (valence arousal : float) : bool :=
  match q with
  | HighHigh => ((0.15 <? valence) && (0.15 <? arousal))%float
  | HighLow => ((0.15 <? valence) && (arousal <? -0.15))%float
  | LowHigh => ((valence <? -0.15) && (0.15 <? arousal))%float
  | LowLow => ((valence <? -0.15) && (arousal <? -0.15))%float
  | Neutral => inCentralBand valence || inCentralBand arousal
  end.

End Utils.

(** ** JSON values: what [JSON.stringify] walks and [JSON.parse] builds

    An object keeps its own enumerable properties in insertion order, which
    is the order in which [JSON.stringify] writes them. *)
Module JSON.

Inductive value : Type :=
  | JNull
  | JBool (b : bool)
  | JNumber (n : float)
  | JString (s : string)
  | JArray (items : list value)
  | JObject (fields : list (string * value)).

(** The property names of an object, in order. *)
Definition keys (v : value) : list string :=
  match v with
  | JObject fields => map fst fields
  | _ => []
  end.

Fixpoint lookup (k : string) (fields : list (string * value)) : option value :=
  match fields with
  | [] => None
  | (k', v) :: rest => if String.eqb k k' then Some v else lookup k rest
  end.

(** [v[k]], when [v] is an object that has the property. *)
Definition get (k : string) (v : value) : option value :=
  match v with
  | JObject fields => lookup k fields
  | _ => None
  end.

Definition isNumber (v : value) : bool :=
  match v with JNumber _ => true | _ => false end.

Definition isString (v : value) : bool :=
  match v with JString _ => true | _ => false end.

Definition isBool (v : value) : bool :=
  match v with JBool _ => true | _ => false end.

Definition hasType (p : value -> bool) (o : option value) : bool :=
  match o with Some v => p v | None => false end.

Definition isArrayOf (p : value -> bool) (v : value) : bool :=
  match v with JArray items => forallb p items | _ => false end.

Definition sameKeys (expected : list string) (v : value) : bool :=
  if list_eq_dec string_dec (keys v) expected then true else false.

End JSON.

(** ** The result page *)
Module Note.
Record t : Type := mk
  { name : string; concentration : float; sustainable : bool }.
End Note.

Module Metrics.
Record t : Type := mk
  { longevity : float;
    projection : float;
    uniqueness : float;
    sustainability : float;
    ifraCompliance : float }.
End Metrics.

Module Formula.
Record t : Type := mk
  { name : string;
    description : string;
    topNotes : list Note.t;
    middleNotes : list Note.t;
    baseNotes : list Note.t;
    metrics : Metrics.t }.
End Formula.

Module ResultPage.

(** [const sampleFormula = { ... }] *)
Definition sampleFormula : Formula.t :=
  {| Formula.name := "Kyoto Morning Rain";
     Formula.description :=
       "A contemplative blend capturing the essence of dawn in a Japanese garden, where petrichor meets ancient cypress.";
     Formula.topNotes :=
       [ Note.mk "Yuzu" 8 true;
         Note.mk "Green Tea Accord" 5 true;
         Note.mk "Pink Pepper" 3 false ];
     Formula.middleNotes :=
       [ Note.mk "Hinoki Wood" 15 true;
         Note.mk "Iris Pallida" 12 true;
         Note.mk "Shiso Leaf" 8 true ];
     Formula.baseNotes :=
       [ Note.mk "Vetiver Haiti" 18 true;
         Note.mk "White Musk" 12 true;
         Note.mk "Ambergris Accord" 10 false ];
     Formula.metrics :=
       {| Metrics.longevity := 85;
          Metrics.projection := 65;
          Metrics.uniqueness := 92;
          Metrics.sustainability := 78;
          Metrics.ifraCompliance := 100 |} |}.

(** The properties of the three object shapes, as [JSON.stringify] sees
    them: in the order of the literal. *)
Definition noteToJSON (n : Note.t) : JSON.value :=
  JSON.JObject
    [ ("name", JSON.JString (Note.name n));
      ("concentration", JSON.JNumber (Note.concentration n));
      ("sustainable", JSON.JBool (Note.sustainable n)) ]%string.

Definition metricsToJSON (m : Metrics.t) : JSON.value :=
  JSON.JObject
    [ ("longevity", JSON.JNumber (Metrics.longevity m));
      ("projection", JSON.JNumber (Metrics.projection m));
      ("uniqueness", JSON.JNumber (Metrics.uniqueness m));
      ("sustainability", JSON.JNumber (Metrics.sustainability m));
      ("ifraCompliance", JSON.JNumber (Metrics.ifraCompliance m)) ]%string.

Definition formulaToJSON (f : Formula.t) : JSON.value :=
  JSON.JObject
    [ ("name", JSON.JString (Formula.name f));
      ("description", JSON.JString (Formula.description f));
      ("topNotes", JSON.JArray (map noteToJSON (Formula.topNotes f)));
      ("middleNotes", JSON.JArray (map noteToJSON (Formula.middleNotes f)));
      ("baseNotes", JSON.JArray (map noteToJSON (Formula.baseNotes f)));
      ("metrics", metricsToJSON (Formula.metrics f)) ]%string.

(** The state of [ResultPage]: three [useState] cells. *)
Record State : Type := mkState
  { isLoading : bool; formula : Formula.t; showExport : bool }.

Definition initial : State :=
  {| isLoading := true; formula := sampleFormula; showExport := false |}.

(** What can happen to the page: the 4 s timer of [useEffect] fires, the
    Share button is pressed, the Export button is pressed.  [setFormula]
    is never called. *)
Inductive Event : Type := TimerFired | ShareClicked | ExportClicked.

Definition step (s : State) (e : Event) : State :=
  match e with
  | TimerFired =>
      {| isLoading := false; formula := formula s;
         showExport := showExport s |}
  | ShareClicked =>
      {| isLoading := isLoading s; formula := formula s;
         showExport := true |}
  | ExportClicked => s
  end.

Inductive reachable : State -> Prop :=
  | reach_initial : reachable initial
  | reach_step (s : State) (e : Event) :
      reachable s -> reachable (step s e).

(** The formula on screen: none while [LoadingAnimation] is shown. *)
Definition displayed (s : State) : option Formula.t :=
  if isLoading s then None else Some (formula s).

(** The scores handed to [MetricsChart] and to the metric tiles
    ([Object.entries(formula.metrics)]). *)
Definition metricValues (m : Metrics.t) : list float :=
  [ Metrics.longevity m; Metrics.projection m; Metrics.uniqueness m;
    Metrics.sustainability m; Metrics.ifraCompliance m ].

(** [handleExport]: the object given to [JSON.stringify].

    [localStorage.getItem] is [getItem]; [JSON.parse] is [parse], [None]
    when it throws; [now] is [new Date().toISOString()].  A stored string is
    parsed only when it is truthy, that is, present and not empty.  When the
    browser denies access to storage ([blocked]) the first read of
    [localStorage] throws.  Nothing in the handler catches an exception: the
    result is [None] when one is thrown. *)
Section ExportData.

Variable blocked : bool.
Variable parse : string -> option JSON.value.
Variable getItem : string -> option string.
Variable now : string.

Definition parseStored (item : option string) : option JSON.value :=
  match item with
  | None => Some JSON.JNull
  | Some EmptyString => Some JSON.JNull
  | Some s => parse s
  end.

Definition handleExport (s : State) : option JSON.value :=
  if blocked then None
  else
    let calibration := getItem "aether_calibration" in
    let neuroBrief := getItem "aether_neuro_brief" in
    match parseStored calibration with
    | None => None
    | Some c =>
        match parseStored neuroBrief with
        | None => None
        | Some n =>
            Some (JSON.JObject
                    [ ("formula", formulaToJSON (formula s));
                      ("calibration", c);
                      ("neuroBrief", n);
                      ("exportedAt", JSON.JString now) ]%string)
        end
    end.

End ExportData.

(** *** Measures on a formula *)

(** The sum of the concentrations of a tier. *)
Definition tierTotal (notes : list Note.t) : float :=
  fold_left (fun acc n => (acc + Note.concentration n)%float) notes 0%float.

(** The sum over the three tiers. *)
Definition totalConcentration (f : Formula.t) : float :=
  (tierTotal (Formula.topNotes f) + tierTotal (Formula.middleNotes f)
   + tierTotal (Formula.baseNotes f))%float.

(** The total is 100 within 1e-6. *)
Definition normalized (f : Formula.t) : bool :=
  (abs (totalConcentration f - 100) <=? 1e-6)%float.


(** A score lies in [[0, 100]]. *)
Definition isScore (x : float) : bool := Utils.within 0 100 x.

(** *** The record of the interface description

    The serialized record as the interface description words it: tiers
    [topNotes], [heartNotes], [baseNotes], each a list of
    [{name, concentration, sustainable}]; [metrics] with the keys
    [longevity], [projection], [sustainability], [ifraCompliance];
    [physioCorrections], a list of strings. *)
Definition isDescribedNote (v : JSON.value) : bool :=
  JSON.sameKeys ["name"; "concentration"; "sustainable"]%string v.

Definition describedShape (v : JSON.value) : bool :=
  JSON.hasType (JSON.isArrayOf isDescribedNote) (JSON.get "topNotes" v)
  && JSON.hasType (JSON.isArrayOf isDescribedNote) (JSON.get "heartNotes" v)
  && JSON.hasType (JSON.isArrayOf isDescribedNote) (JSON.get "baseNotes" v)
  && JSON.hasType
       (JSON.sameKeys
          ["longevity"; "projection"; "sustainability"; "ifraCompliance"]%string)
       (JSON.get "metrics" v)
  && JSON.hasType (JSON.isArrayOf JSON.isString)
       (JSON.get "physioCorrections" v).

(** The record that the page exports. *)
Definition exportedShape (v : JSON.value) : bool :=
  JSON.sameKeys
    ["name"; "description"; "topNotes"; "middleNotes"; "baseNotes";
     "metrics"]%string v
  && JSON.hasType JSON.isString (JSON.get "name" v)
  && JSON.hasType JSON.isString (JSON.get "description" v)
  && JSON.hasType (JSON.isArrayOf isDescribedNote) (JSON.get "topNotes" v)
  && JSON.hasType (JSON.isArrayOf isDescribedNote) (JSON.get "middleNotes" v)
  && JSON.hasType (JSON.isArrayOf isDescribedNote) (JSON.get "baseNotes" v)
  && JSON.hasType
       (JSON.sameKeys
          ["longevity"; "projection"; "uniqueness"; "sustainability";
           "ifraCompliance"]%string)
       (JSON.get "metrics" v).

(** An empty [localStorage] and a parser that is never reached. *)
Definition emptyStorage (k : string) : option string := None.
Definition neverParsed (s : string) : option JSON.value := None.

End ResultPage.

(** ** The formulation engine: renormalisation

    The engine runs on the server; its sources are not among the front-end
    files.  This module follows its design description, in exact rational
    arithmetic. *)
Module Engine.

#[local] Open Scope Q_scope.

Inductive Tier : Type := Top | Heart | Base.
Inductive Volatility : Type := High | Medium | Low.

(** Immutable reference data of the ingredient catalog. *)
Record Ingredient : Type :=
  { name : string;
    family : string;
    tier : Tier;
    lipophilicity : Q;
    volatility : Volatility;
    allergens : list string;
    sustainable : bool }.

(** An ingredient reference plus a concentration, in percent. *)
Record FormulaComponent : Type :=
  { ingredient : Ingredient; concentration : Q }.

Record Formula : Type :=
  { title : string;
    description : string;
    top : list FormulaComponent;
    heart : list FormulaComponent;
    base : list FormulaComponent }.

(** All components, top tier first. *)
Definition components (f : Formula) : list FormulaComponent :=
  top f ++ heart f ++ base f.

Definition sumConcentration (cs : list FormulaComponent) : Q :=
  fold_right (fun c acc => concentration c + acc) 0 cs.

Definition total (f : Formula) : Q := sumConcentration (components f).

Definition scaleComponent (k : Q) (c : FormulaComponent) : FormulaComponent :=
  {| ingredient := ingredient c; concentration := concentration c * k |}.

Definition mapTiers
    (g : list FormulaComponent -> list FormulaComponent) (f : Formula)
    : Formula :=
  {| title := title f;
     description := description f;
     top := g (top f);
     heart := g (heart f);
     base := g (base f) |}.

Definition scale (k : Q) (f : Formula) : Formula :=
  mapTiers (map (scaleComponent k)) f.

(** Modelled from the spec: the renormalisation step of the engine, which
    is not among the sources.  "Scale every component's concentration so
    the grand total is exactly 100, preserving relative proportions within
    and across tiers." *)
Definition renormalize (f : Formula) : Formula :=
  scale (100 / total f) f.

(** The same ingredient at the same concentration. *)
Definition sameComponent (c d : FormulaComponent) : Prop :=
  ingredient c = ingredient d /\ concentration c == concentration d.

(** *** Sample data *)

Definition bergamot : Ingredient :=
  {| name := "Bergamot"; family := "Citrus"; tier := Top;
     lipophilicity := 28 # 10; volatility := High;
     allergens := ["limonene"%string]; sustainable := true |}.

Definition jasmine : Ingredient :=
  {| name := "Jasmine"; family := "Floral"; tier := Heart;
     lipophilicity := 32 # 10; volatility := Medium;
     allergens := []; sustainable := true |}.

Definition cedarwood : Ingredient :=
  {| name := "Cedarwood"; family := "Woody"; tier := Base;
     lipophilicity := 45 # 10; volatility := Low;
     allergens := []; sustainable := true |}.

(** A formula in the 20/35/45 pyramid. *)
Definition pyramidFormula : Formula :=
  {| title := "Morning Zephyr"; description := "Fresh morning breeze";
     top := [ {| ingredient := bergamot; concentration := 20 |} ];
     heart := [ {| ingredient := jasmine; concentration := 35 |} ];
     base := [ {| ingredient := cedarwood; concentration := 45 |} ] |}.

End Engine.

(** ** [frontend/src/lib/utils.ts]: formatting *)
Module Format.

(** The result of [formatPh]. *)
Record PhFormat : Type := { value : string; label : string }.

Section ToFixed.

(** [Number.prototype.toFixed], the decimal printer of the runtime. *)
Variable toFixed : float -> nat -> string.

(** [formatPercent(value, decimals = 1)] *)
Definition formatPercent (value : float) (decimals : option nat) : string :=
  let decimals := match decimals with Some d => d | None => 1%nat end in
  (toFixed value decimals ++ "%")%string.

(** [formatPh(value)] *)
Definition formatPh (value : float) : PhFormat :=
  let formatted := toFixed value 1 in
  let label : string :=
    (if Utils.lt value 4.5 then "Very Acidic"
     else if Utils.lt value 5.5 then "Acidic"
     else if Utils.lt value 6.5 then "Slightly Acidic"
     else if Utils.lt value 7.5 then "Neutral"
     else "Alkaline")%string in
  {| value := formatted; label := label |}.

End ToFixed.

(** The labels from the most acidic to the alkaline one. *)
Definition phLabels : list string :=
  ["Very Acidic"; "Acidic"; "Slightly Acidic"; "Neutral"; "Alkaline"]%string.

(** The position of a label in [phLabels] (5 for any other string). *)
Fixpoint indexOf (s : string) (labels : list string) : nat :=
  match labels with
  | [] => 0
  | l :: rest => if String.eqb s l then 0 else S (indexOf s rest)
  end.

Definition acidityRank (label : string) : nat := indexOf label phLabels.

End Format.

(** ** The browser's [localStorage] and the helpers of [utils.ts] over it *)
Module LocalStorage.

(** The stored items: a string per key. *)
Definition t : Type := string -> option string.

Definition empty : t := fun _ => None.

Definition getItem (store : t) (key : string) : option string := store key.

Definition setItem (store : t) (key value : string) : t :=
  fun k => if String.eqb k key then Some value else store k.

Definition removeItem (store : t) (key : string) : t :=
  fun k => if String.eqb k key then None else store k.

End LocalStorage.

Module StorageUtils.

Section Browser.

(** [isServer]: there is no [window]. *)
Variable isServer : bool.

(** Touching [localStorage] throws (storage disabled by the user). *)
Variable blocked : bool.

(** [setItem] takes the item (it throws when the quota is exceeded). *)
Variable accepts : LocalStorage.t -> string -> string -> bool.

(** [JSON.parse], [None] when it throws, and [JSON.stringify]. *)
Variable parse : string -> option JSON.value.
Variable stringify : JSON.value -> string.

(** [getLocalStorage(key, defaultValue)] *)
Definition getLocalStorage
    (key : string) (defaultValue : JSON.value) (store : LocalStorage.t)
    : JSON.value :=
  if isServer then defaultValue
  else if blocked then defaultValue
  else
    match LocalStorage.getItem store key with
    | None => defaultValue
    | Some EmptyString => defaultValue
    | Some item =>
        match parse item with
        | Some v => v
        | None => defaultValue
        end
    end.

(** [setLocalStorage(key, value)]: the store afterwards and the lines given
    to [console.warn]. *)
Definition setLocalStorage
    (key : string) (value : JSON.value) (store : LocalStorage.t)
    : LocalStorage.t * list string :=
  if isServer then (store, [])
  else if blocked || negb (accepts store key (stringify value)) then
    (store, [("Failed to set localStorage key: " ++ key)%string])
  else (LocalStorage.setItem store key (stringify value), []).

(** [removeLocalStorage(key)] *)
Definition removeLocalStorage (key : string) (store : LocalStorage.t)
    : LocalStorage.t * list string :=
  if isServer then (store, [])
  else if blocked then
    (store, [("Failed to remove localStorage key: " ++ key)%string])
  else (LocalStorage.removeItem store key, []).

End Browser.

(** A stored item that [handleExport] and [getLocalStorage] try to parse and
    that does not parse. *)
Definition unparsable
    (parse : string -> option JSON.value) (item : option string) : Prop :=
  exists s, item = Some s /\ s <> EmptyString /\ parse s = None.

End StorageUtils.

(** ** The name of the exported file *)
Module Download.

Definition isWhitespace (c : Ascii.ascii) : bool :=
  let n := Ascii.nat_of_ascii c in
  ((9 <=? n) && (n <=? 13) || (n =? 32))%nat.

Definition isUpper (c : Ascii.ascii) : bool :=
  let n := Ascii.nat_of_ascii c in ((65 <=? n) && (n <=? 90))%nat.

Definition isAscii (c : Ascii.ascii) : bool :=
  (Ascii.nat_of_ascii c <? 128)%nat.

Definition toLower (c : Ascii.ascii) : Ascii.ascii :=
  if isUpper c then Ascii.ascii_of_nat (Ascii.nat_of_ascii c + 32) else c.

(** [s.toLowerCase()], on ASCII text. *)
Fixpoint toLowerCase (s : string) : string :=
  match s with
  | EmptyString => EmptyString
  | String c rest => String (toLower c) (toLowerCase rest)
  end.

(** The character [-]. *)
Definition hyphen : Ascii.ascii := Eval compute in Ascii.ascii_of_nat 45.

(** [s.replace(/\s+/g, '-')], on ASCII text: every maximal run of
    whitespace becomes one hyphen.  [inRun] says that the previous
    character belonged to a run already replaced. *)
Fixpoint replaceRuns (inRun : bool) (s : string) : string :=
  match s with
  | EmptyString => EmptyString
  | String c rest =>
      if isWhitespace c then
        if inRun then replaceRuns true rest
        else String hyphen (replaceRuns true rest)
      else String c (replaceRuns false rest)
  end.

Definition replaceWhitespace (s : string) : string := replaceRuns false s.

(** [name.toLowerCase().replace(/\s+/g, '-')] *)
Definition slug (name : string) : string :=
  replaceWhitespace (toLowerCase name).

(** [a.download] in [handleExport]. *)
Definition downloadName (f : Formula.t) : string :=
  ("aether-formula-" ++ slug (Formula.name f) ++ ".json")%string.

Definition chars (s : string) : list Ascii.ascii := list_ascii_of_string s.

Definition allChars (p : Ascii.ascii -> bool) (s : string) : bool :=
  forallb p (chars s).

(** Neither whitespace nor an upper-case letter. *)
Definition plain (c : Ascii.ascii) : bool :=
  negb (isWhitespace c) && negb (isUpper c).

(** A formula that has only a name. *)
Definition named (name : string) : Formula.t :=
  {| Formula.name := name;
     Formula.description := EmptyString;
     Formula.topNotes := [];
     Formula.middleNotes := [];
     Formula.baseNotes := [];
     Formula.metrics := Formula.metrics ResultPage.sampleFormula |}.

End Download.

(** ** [debounce] and [throttle] on the event loop

    A wrapped function sees two kinds of events: it is called, or the event
    loop runs the callback of its oldest pending timer.  A timer set by
    [setTimeout(callback, delay)] at time [t] is due at [t + delay]; the
    event loop runs it no earlier.  Times are in milliseconds. *)
Module Timers.

#[local] Open Scope nat_scope.

Inductive Event (A : Type) : Type :=
  | Call (args : A)
  | TimerFires.

Arguments Call {A} args.
Arguments TimerFires {A}.

Section Run.

Context {A St : Type}.

(** [step now event state] is [None] when the event cannot happen: no timer
    is pending, or the oldest one is not due. *)
Variable step : nat -> Event A -> St -> option St.

(** Feed a trace of timed events; time does not go backwards. *)
Fixpoint run (clock : nat) (trace : list (nat * Event A)) (st : St)
    : option St :=
  match trace with
  | [] => Some st
  | (t, e) :: rest =>
      if (clock <=? t)%nat then
        match step t e st with
        | Some st' => run t rest st'
        | None => None
        end
      else None
  end.

End Run.

(** *** [throttle(func, limit)] *)

(** A call of the throttled function, together with what [func] does if the
    call is passed on to it: the calls that [func] itself makes to the
    throttled function while it runs, and whether it then returns or
    throws. *)
Inductive Invocation (A : Type) : Type :=
  | Invoke (args : A) (during : list (Invocation A)) (returns : bool).

Arguments Invoke {A} args during returns.

Section Throttle.

Variable A : Type.
Variable limit : nat.

(** The closure's [inThrottle], the due times of the pending
    [() => (inThrottle = false)] timers, and the invocations of [func]:
    when it was started, with which arguments, and whether it returned. *)
Record ThrottleState : Type := mkThrottle
  { inThrottle : bool;
    resets : list nat;
    passed : list (nat * A * bool) }.

Definition throttleStart : ThrottleState := mkThrottle false [] [].

(** The wrapper,
    [if (!inThrottle) { func(...args); inThrottle = true; setTimeout(..., limit) }].
    [func] runs first, with [inThrottle] still false, so the calls it makes
    to the wrapper are handled before the flag is set; when [func] throws,
    the exception leaves the wrapper and neither the flag nor the timer is
    set. *)
Fixpoint callThrottled (now : nat) (c : Invocation A) (st : ThrottleState)
    : ThrottleState :=
  match c with
  | Invoke args during returns =>
      if inThrottle st then st
      else
        let started :=
          mkThrottle (inThrottle st) (resets st)
            (passed st ++ [(now, args, returns)]) in
        let finished :=
          fold_left (fun s d => callThrottled now d s) during started in
        if returns then
          mkThrottle true (resets finished ++ [now + limit])
            (passed finished)
        else finished
  end.

Definition throttleStep (now : nat) (e : Event (Invocation A))
    (st : ThrottleState) : option ThrottleState :=
  match e with
  | Call c => Some (callThrottled now c st)
  | TimerFires =>
      match resets st with
      | due :: rest =>
          if (due <=? now)%nat then Some (mkThrottle false rest (passed st))
          else None
      | [] => None
      end
  end.

(** [func] does not call the throttled function. *)
Definition plain (c : Invocation A) : bool :=
  match c with
  | Invoke _ [] _ => true
  | Invoke _ (_ :: _) _ => false
  end.

Definition plainTrace (trace : list (nat * Event (Invocation A))) : Prop :=
  Forall (fun timed =>
            match snd timed with
            | Call c => plain c = true
            | TimerFires => True
            end) trace.

(** All the invocations of [func] that a call can lead to: its own and
    those of the calls made while [func] runs. *)
Fixpoint callsOf (c : Invocation A) : list (A * bool) :=
  match c with
  | Invoke args during returns => (args, returns) :: flat_map callsOf during
  end.

(** After an invocation that returned, none is started for [limit] ms. *)
Fixpoint quietAfterReturn (log : list (nat * A * bool)) : Prop :=
  match log with
  | [] => True
  | (t, _, returned) :: rest =>
      (returned = true -> Forall (fun e => t + limit <= fst (fst e)) rest)
      /\ quietAfterReturn rest
  end.

End Throttle.

(** *** [debounce(func, wait)] *)
Section Debounce.

Variable A : Type.
Variable wait : nat.

(** The closure's [timeout] handle, the next timer id of the browser, the
    pending timers (id, due time, arguments captured) and the calls that
    reached [func], with their times.  Timer ids start at 1, so a handle is
    truthy. *)
Record DebounceState : Type := mkDebounce
  { timeout : option nat;
    nextId : nat;
    pending : list (nat * nat * A);
    delivered : list (nat * A) }.

Definition debounceStart : DebounceState := mkDebounce None 1 [] [].

(** [clearTimeout(id)] *)
Definition clearTimeout (id : nat) (timers : list (nat * nat * A))
    : list (nat * nat * A) :=
  filter (fun timer => negb (fst (fst timer) =? id)%nat) timers.

Definition debounceStep (now : nat) (e : Event A) (st : DebounceState)
    : option DebounceState :=
  match e with
  | Call args =>
      let timers :=
        match timeout st with
        | Some id => clearTimeout id (pending st)
        | None => pending st
        end in
      Some (mkDebounce (Some (nextId st)) (S (nextId st))
              (timers ++ [(nextId st, now + wait, args)])
              (delivered st))
  | TimerFires =>
      match pending st with
      | (id, due, args) :: rest =>
          if (due <=? now)%nat then
            Some (mkDebounce (timeout st) (nextId st) rest
                    (delivered st ++ [(now, args)]))
          else None
      | [] => None
      end
  end.

(** What a debounced function should deliver: at each timer, the arguments
    of the call just before it, if any. *)
Fixpoint lastCallWins (armed : option A) (trace : list (nat * Event A))
    : list (nat * A) :=
  match trace with
  | [] => []
  | (_, Call args) :: rest => lastCallWins (Some args) rest
  | (t, TimerFires) :: rest =>
      match armed with
      | Some args => (t, args) :: lastCallWins None rest
      | None => lastCallWins None rest
      end
  end.

End Debounce.

Arguments inThrottle {A} _.
Arguments resets {A} _.
Arguments passed {A} _.
Arguments throttleStart {A}.
Arguments callThrottled {A} limit now c st.
Arguments throttleStep {A} limit now e st.
Arguments plain {A} c.
Arguments plainTrace {A} trace.
Arguments callsOf {A} c.
Arguments quietAfterReturn {A} limit log.
Arguments timeout {A} _.
Arguments nextId {A} _.
Arguments pending {A} _.
Arguments delivered {A} _.
Arguments debounceStart {A}.
Arguments clearTimeout {A} id timers.
Arguments debounceStep {A} wait now e st.
Arguments lastCallWins {A} armed trace.

(** What holds of a throttle between events when [func] does not call it:
    no invocation was started within [limit] ms after one that returned;
    while throttled exactly one reset is pending, due no earlier than
    [limit] after every invocation that returned; otherwise none is and
    every invocation that returned is at least [limit] old. *)
Definition throttleOk {A : Type} (limit clock : nat) (st : ThrottleState A)
    : Prop :=
  quietAfterReturn limit (passed st)
  /\ if inThrottle st then
       exists due,
         resets st = [due]
         /\ Forall (fun e => snd e = true -> fst (fst e) + limit <= due)
              (passed st)
     else
       resets st = []
       /\ Forall (fun e => snd e = true -> fst (fst e) + limit <= clock)
            (passed st).

(** What holds of a debounce between events: the timer of the last call is
    the only one pending, until it fires. *)
Definition debounceOk {A : Type} (wait : nat) (armed : option (nat * A))
    (st : DebounceState A) : Prop :=
  match armed with
  | Some (called, args) =>
      exists id, timeout st = Some id
                 /\ pending st = [(id, called + wait, args)]
  | None => pending st = []
  end.

End Timers.

(** ** The metric tiles of the result page *)
Module Tiles.

Definition space : Ascii.ascii := Eval compute in Ascii.ascii_of_nat 32.

(** [key.replace(/([A-Z])/g, ' $1')], on ASCII text: a space goes in front
    of every upper-case letter. *)
Fixpoint spaceUpper (key : string) : string :=
  match key with
  | EmptyString => EmptyString
  | String c rest =>
      if Download.isUpper c then String space (String c (spaceUpper rest))
      else String c (spaceUpper rest)
  end.

Fixpoint trimStart (s : string) : string :=
  match s with
  | EmptyString => EmptyString
  | String c rest =>
      if Download.isWhitespace c then trimStart rest else String c rest
  end.

Fixpoint trimEnd (s : string) : string :=
  match s with
  | EmptyString => EmptyString
  | String c rest =>
      match trimEnd rest with
      | EmptyString =>
          if Download.isWhitespace c then EmptyString
          else String c EmptyString
      | kept => String c kept
      end
  end.

(** [s.trim()], on ASCII text. *)
Definition trim (s : string) : string := trimEnd (trimStart s).

(** The caption of a metric tile, before the style sheet capitalises it. *)
Definition tileLabel (key : string) : string := trim (spaceUpper key).

(** The text without its whitespace. *)
Fixpoint squeeze (s : string) : string :=
  match s with
  | EmptyString => EmptyString
  | String c rest =>
      if Download.isWhitespace c then squeeze rest
      else String c (squeeze rest)
  end.

Definition firstChar (s : string) : option Ascii.ascii :=
  match s with EmptyString => None | String c _ => Some c end.

Fixpoint lastChar (s : string) : option Ascii.ascii :=
  match s with
  | EmptyString => None
  | String c EmptyString => Some c
  | String _ rest => lastChar rest
  end.

Definition notWhitespace (c : option Ascii.ascii) : bool :=
  match c with Some c => negb (Download.isWhitespace c) | None => true end.

End Tiles.

(* ================================================================== *)
(** * Part II: properties                                              *)
(* ================================================================== *)

Module IEEEFacts.
Import IEEE.

Lemma SFcompare_ord (x y : spec_float) :
  x <> S754_nan -> y <> S754_nan ->
  SFcompare x y = Some (lexcmp (ord x) (ord y)).
Proof.
  destruct x as [sx|sx| |sx mx ex], y as [sy|sy| |sy my ey];
    try congruence; intros _ _;
    try destruct sx; try destruct sy; try reflexivity; simpl.
  rewrite Z.compare_opp, (Z.compare_antisym ex ey).
  destruct (ex ?= ey)%Z; reflexivity.
Qed.

Lemma lexcmp_Lt (a b : Z * Z * Z) :
  match lexcmp a b with Lt => true | _ => false end = lexltb a b.
Proof.
  destruct a as [[a1 a2] a3], b as [[b1 b2] b3]; unfold lexcmp, lexltb.
  destruct (Z.compare_spec a1 b1), (Z.compare_spec a2 b2),
    (Z.compare_spec a3 b3); lia.
Qed.

Lemma lexcmp_Eq (a b : Z * Z * Z) :
  match lexcmp a b with Eq => true | _ => false end = lexeqb a b.
Proof.
  destruct a as [[a1 a2] a3], b as [[b1 b2] b3]; unfold lexcmp, lexeqb.
  destruct (Z.compare_spec a1 b1), (Z.compare_spec a2 b2),
    (Z.compare_spec a3 b3); lia.
Qed.

Lemma lexcmp_Le (a b : Z * Z * Z) :
  match lexcmp a b with Lt | Eq => true | _ => false end = lexleb a b.
Proof.
  destruct a as [[a1 a2] a3], b as [[b1 b2] b3];
    unfold lexcmp, lexleb, lexltb, lexeqb.
  destruct (Z.compare_spec a1 b1), (Z.compare_spec a2 b2),
    (Z.compare_spec a3 b3); lia.
Qed.

(** The three comparisons of [float], read off the keys. *)
Lemma ltb_key (x y : float) : (x <? y)%float = keyLtb (key x) (key y).
Proof.
  rewrite ltb_spec. unfold key, keyLtb, SFltb.
  destruct (Prim2SF x) eqn:Ex, (Prim2SF y) eqn:Ey; try reflexivity;
    (rewrite SFcompare_ord by discriminate; apply lexcmp_Lt).
Qed.

Lemma leb_key (x y : float) : (x <=? y)%float = keyLeb (key x) (key y).
Proof.
  rewrite leb_spec. unfold key, keyLeb, SFleb.
  destruct (Prim2SF x) eqn:Ex, (Prim2SF y) eqn:Ey; try reflexivity;
    (rewrite SFcompare_ord by discriminate; apply lexcmp_Le).
Qed.

Lemma eqb_key (x y : float) : (x =? y)%float = keyEqb (key x) (key y).
Proof.
  rewrite eqb_spec. unfold key, keyEqb, SFeqb.
  destruct (Prim2SF x) eqn:Ex, (Prim2SF y) eqn:Ey; try reflexivity;
    (rewrite SFcompare_ord by discriminate; apply lexcmp_Eq).
Qed.

Lemma is_nan_key (x : float) :
  is_nan x = match key x with None => true | Some _ => false end.
Proof.
  unfold is_nan. rewrite eqb_key. unfold keyEqb.
  destruct (key x) as [[[a b] c]|]; [|reflexivity].
  unfold lexeqb. rewrite !Z.eqb_refl. reflexivity.
Qed.

End IEEEFacts.

(** ** Order reasoning on numbers by keys *)
Module FloatTactics.
Import IEEE IEEEFacts.

Lemma key_0_15 : key 0.15 = Some (1, -55, 5404319552844595)%Z.
Proof. vm_compute. reflexivity. Qed.

Lemma key_m0_15 : key (-0.15) = Some (-1, 55, -5404319552844595)%Z.
Proof. vm_compute. reflexivity. Qed.

Lemma key_1 : key 1 = Some (1, -52, 4503599627370496)%Z.
Proof. vm_compute. reflexivity. Qed.

Lemma key_m1 : key (-1) = Some (-1, 52, -4503599627370496)%Z.
Proof. vm_compute. reflexivity. Qed.

Lemma key_0 : key zero = Some (0, 0, 0)%Z.
Proof. vm_compute. reflexivity. Qed.

Lemma key_m0 : key neg_zero = Some (0, 0, 0)%Z.
Proof. vm_compute. reflexivity. Qed.

Lemma key_infinity : key infinity = Some (2, 0, 0)%Z.
Proof. vm_compute. reflexivity. Qed.

Lemma key_neg_infinity : key neg_infinity = Some (-2, 0, 0)%Z.
Proof. vm_compute. reflexivity. Qed.

Lemma key_nan : key nan = None.
Proof. vm_compute. reflexivity. Qed.

Create Rewrite HintDb floatkeys.
#[export] Hint Rewrite ltb_key leb_key eqb_key is_nan_key
  key_0_15 key_m0_15 key_1 key_m1 key_0 key_m0
  key_infinity key_neg_infinity key_nan : floatkeys.

(** Turn every comparison in sight into arithmetic on keys and decide it. *)
Ltac float_order :=
  unfold Utils.inUnit, Utils.inCentralBand, Utils.within, Utils.gt,
    Utils.lt in *;
  autorewrite with floatkeys in *;
  repeat match goal with
    | H : context [key ?x] |- _ =>
        is_var x; destruct (key x) as [[[? ?] ?]|]
    | |- context [key ?x] =>
        is_var x; destruct (key x) as [[[? ?] ?]|]
    end;
  unfold keyLtb, keyLeb, keyEqb, lexleb, lexltb, lexeqb in *;
  try discriminate; try lia.

End FloatTactics.

(** ** The valence/arousal helpers *)
Module UtilsFacts.
Import IEEE IEEEFacts FloatTactics Utils.

Lemma getMoodLabel_quadrant (valence arousal : float) :
  getMoodLabel valence arousal = moodLabelOf (quadrantOf valence arousal).
Proof.
  unfold getMoodLabel, quadrantOf.
  repeat match goal with |- context [if ?c then _ else _] => destruct c end;
    reflexivity.
Qed.

Lemma getScentFamilies_quadrant (valence arousal : float) :
  getScentFamilies valence arousal
  = scentFamiliesOf (quadrantOf valence arousal).
Proof.
  unfold getScentFamilies, quadrantOf.
  repeat match goal with |- context [if ?c then _ else _] => destruct c end;
    reflexivity.
Qed.

Lemma moodLabelOf_inj (p q : Quadrant) :
  moodLabelOf p = moodLabelOf q -> p = q.
Proof. destruct p, q; simpl; intro H; (reflexivity || discriminate H). Qed.

Lemma scentFamiliesOf_inj (p q : Quadrant) :
  scentFamiliesOf p = scentFamiliesOf q -> p = q.
Proof. destruct p, q; simpl; intro H; (reflexivity || discriminate H). Qed.

(** C8: [getMoodLabel] and [getScentFamilies] cut the valence/arousal plane
    into the same five regions: for every pair of numbers one quadrant gives
    both the label and the family list, and the label of a quadrant is
    returned exactly when its family list is returned. *)
Theorem mood_and_families_same_partition (valence arousal : float) :
  (exists q, getMoodLabel valence arousal = moodLabelOf q
             /\ getScentFamilies valence arousal = scentFamiliesOf q)
  /\ (forall q, getMoodLabel valence arousal = moodLabelOf q
                <-> getScentFamilies valence arousal = scentFamiliesOf q).
Proof.
  rewrite getMoodLabel_quadrant, getScentFamilies_quadrant. split.
  - exists (quadrantOf valence arousal). split; reflexivity.
  - intro q. split; intro H.
    + apply moodLabelOf_inj in H. now rewrite H.
    + apply scentFamiliesOf_inj in H. now rewrite H.
Qed.

Lemma quadrantOf_band (valence arousal : float) :
  inCentralBand valence = true \/ inCentralBand arousal = true ->
  quadrantOf valence arousal = Neutral.
Proof.
  unfold quadrantOf. intros [H|H].
  - assert (Hg : gt valence 0.15 = false) by float_order.
    assert (Hl : lt valence (-0.15) = false) by float_order.
    rewrite Hg, Hl. reflexivity.
  - assert (Hg : gt arousal 0.15 = false) by float_order.
    assert (Hl : lt arousal (-0.15) = false) by float_order.
    rewrite Hg, Hl, !andb_false_r. reflexivity.
Qed.

(** A number of [[-1, 1]] is above the upper threshold, below the lower one
    or in the central band, and in one of the three only. *)
Lemma coordinate_cases (x : float) :
  inUnit x = true ->
  (gt x 0.15 = true /\ lt x (-0.15) = false /\ inCentralBand x = false)
  \/ (gt x 0.15 = false /\ lt x (-0.15) = true /\ inCentralBand x = false)
  \/ (gt x 0.15 = false /\ lt x (-0.15) = false /\ inCentralBand x = true).
Proof.
  intro H.
  destruct (gt x 0.15) eqn:Hg, (lt x (-0.15)) eqn:Hl,
    (inCentralBand x) eqn:Hb; try tauto; exfalso; float_order.
Qed.

(** C5: for valence and arousal in [[-1, 1]] the point lies in exactly one of
    the five regions of the plane (both coordinates above 0.15; valence above
    0.15 and arousal below -0.15; valence below -0.15 and arousal above 0.15;
    both below -0.15; a coordinate in the central band [[-0.15, 0.15]]), and
    [getScentFamilies] returns the family list of that region, which is not
    empty.  (The mapping is a function, hence defined and single-valued.) *)
Theorem getScentFamilies_by_region (valence arousal : float) :
  inUnit valence = true -> inUnit arousal = true ->
  (exists q, inRegion q valence arousal = true
             /\ (forall q', inRegion q' valence arousal = true -> q' = q)
             /\ getScentFamilies valence arousal = scentFamiliesOf q)
  /\ getScentFamilies valence arousal <> [].
Proof.
  intros Hv Ha. rewrite getScentFamilies_quadrant. split.
  2: destruct (quadrantOf valence arousal); discriminate.
  exists (quadrantOf valence arousal). unfold quadrantOf.
  destruct (coordinate_cases valence Hv)
    as [(Hg & Hl & Hb)|[(Hg & Hl & Hb)|(Hg & Hl & Hb)]];
  destruct (coordinate_cases arousal Ha)
    as [(Hg' & Hl' & Hb')|[(Hg' & Hl' & Hb')|(Hg' & Hl' & Hb')]];
  rewrite Hg, Hl, Hg', Hl'; cbn [andb];
  (split;
   [ unfold inRegion; fold (gt valence 0.15); fold (gt arousal 0.15);
     fold (lt valence (-0.15)); fold (lt arousal (-0.15));
     rewrite ?Hg, ?Hl, ?Hg', ?Hl', ?Hb, ?Hb'; reflexivity
   | split; [|reflexivity];
     intros q' Hq'; destruct q'; try reflexivity; exfalso;
     unfold inRegion in Hq'; fold (gt valence 0.15) in Hq';
     fold (gt arousal 0.15) in Hq'; fold (lt valence (-0.15)) in Hq';
     fold (lt arousal (-0.15)) in Hq';
     rewrite ?Hg, ?Hl, ?Hg', ?Hl', ?Hb, ?Hb' in Hq'; discriminate Hq' ]).
Qed.

Lemma getScentFamilies_by_region_witness :
  (exists q, inRegion q (-0.5) 0.5 = true
             /\ (forall q', inRegion q' (-0.5) 0.5 = true -> q' = q)
             /\ getScentFamilies (-0.5) 0.5 = scentFamiliesOf q)
  /\ getScentFamilies (-0.5) 0.5 <> [].
Proof. exact (getScentFamilies_by_region (-0.5) 0.5 eq_refl eq_refl). Defined.

End UtilsFacts.

(** ** [Math.max], [Math.min] and [clamp] *)
Module ClampFacts.
Import IEEE IEEEFacts FloatTactics Utils.

Lemma Prim2SF_neg_infinity : Prim2SF neg_infinity = S754_infinity true.
Proof. vm_compute. reflexivity. Qed.

Lemma Prim2SF_infinity : Prim2SF infinity = S754_infinity false.
Proof. vm_compute. reflexivity. Qed.

Lemma above_neg_infinity (a : float) :
  is_nan a = false -> (neg_infinity <? a)%float = false -> a = neg_infinity.
Proof.
  unfold is_nan. rewrite eqb_spec, ltb_spec, Prim2SF_neg_infinity.
  intros Hn Hl. apply Prim2SF_inj. rewrite Prim2SF_neg_infinity.
  destruct (Prim2SF a) as [s|[|]| |[|] m e]; simpl in *;
    try discriminate; reflexivity.
Qed.

Lemma below_infinity (a : float) :
  is_nan a = false -> (a <? infinity)%float = false -> a = infinity.
Proof.
  unfold is_nan. rewrite eqb_spec, ltb_spec, Prim2SF_infinity.
  intros Hn Hl. apply Prim2SF_inj. rewrite Prim2SF_infinity.
  destruct (Prim2SF a) as [s|[|]| |[|] m e]; simpl in *;
    try discriminate; reflexivity.
Qed.

(** After its first argument the running maximum is that argument. *)
Lemma maxLoop_first (a : float) (rest : list float) :
  is_nan a = false ->
  Math.maxLoop neg_infinity (a :: rest) = Math.maxLoop a rest.
Proof.
  intro Hn. simpl. rewrite Hn.
  replace (Math.isNegZero neg_infinity) with false by reflexivity.
  rewrite andb_false_r.
  destruct (neg_infinity <? a)%float eqn:Hl; [reflexivity|].
  now rewrite (above_neg_infinity a Hn Hl).
Qed.

Lemma minLoop_first (a : float) (rest : list float) :
  is_nan a = false ->
  Math.minLoop infinity (a :: rest) = Math.minLoop a rest.
Proof.
  intro Hn. simpl. rewrite Hn.
  replace (Math.isPosZero infinity) with false by reflexivity.
  rewrite andb_false_r.
  destruct (a <? infinity)%float eqn:Hl; [reflexivity|].
  now rewrite (below_infinity a Hn Hl).
Qed.

Lemma max_nan_l (a b : float) : is_nan a = true -> Math.max [a; b] = nan.
Proof. intro Hn. unfold Math.max. simpl. now rewrite Hn. Qed.

Lemma min_nan_l (a b : float) : is_nan a = true -> Math.min [a; b] = nan.
Proof. intro Hn. unfold Math.min. simpl. now rewrite Hn. Qed.

Lemma isPosZero_key (x : float) :
  Math.isPosZero x = true -> key x = Some (0, 0, 0)%Z.
Proof.
  unfold Math.isPosZero, key. rewrite classify_spec.
  destruct (Prim2SF x) as [[|]|[|]| |[|] m e]; simpl;
    try discriminate; try reflexivity;
    match goal with |- context [if ?c then _ else _] => destruct c end;
    discriminate.
Qed.

Lemma isNegZero_key (x : float) :
  Math.isNegZero x = true -> key x = Some (0, 0, 0)%Z.
Proof.
  unfold Math.isNegZero, key. rewrite classify_spec.
  destruct (Prim2SF x) as [[|]|[|]| |[|] m e]; simpl;
    try discriminate; try reflexivity;
    match goal with |- context [if ?c then _ else _] => destruct c end;
    discriminate.
Qed.

Lemma key_not_nan (x : float) (k : Z * Z * Z) :
  key x = Some k -> is_nan x = false.
Proof. intro H. now rewrite is_nan_key, H. Qed.

(** On numbers, [Math.max] and [Math.min] of two arguments pick the larger
    and the smaller key. *)
Lemma max_pair_key (a b : float) (ka kb : Z * Z * Z) :
  key a = Some ka -> key b = Some kb ->
  key (Math.max [a; b]) = Some (if lexltb ka kb then kb else ka).
Proof.
  intros Ha Hb. unfold Math.max.
  rewrite maxLoop_first by exact (key_not_nan a ka Ha).
  simpl. rewrite (key_not_nan b kb Hb).
  destruct (Math.isPosZero b && Math.isNegZero a) eqn:Hz.
  - apply andb_prop in Hz. destruct Hz as [Hzb Hza].
    apply isPosZero_key in Hzb. apply isNegZero_key in Hza.
    rewrite Ha in Hza. rewrite Hb in Hzb.
    injection Hza as ->. injection Hzb as ->.
    rewrite ltb_key, key_0, Hb. simpl. exact key_0.
  - rewrite ltb_key, Ha, Hb. simpl. destruct (lexltb ka kb); assumption.
Qed.

Lemma min_pair_key (a b : float) (ka kb : Z * Z * Z) :
  key a = Some ka -> key b = Some kb ->
  key (Math.min [a; b]) = Some (if lexltb kb ka then kb else ka).
Proof.
  intros Ha Hb. unfold Math.min.
  rewrite minLoop_first by exact (key_not_nan a ka Ha).
  simpl. rewrite (key_not_nan b kb Hb).
  destruct (Math.isNegZero b && Math.isPosZero a) eqn:Hz.
  - apply andb_prop in Hz. destruct Hz as [Hzb Hza].
    apply isNegZero_key in Hzb. apply isPosZero_key in Hza.
    rewrite Ha in Hza. rewrite Hb in Hzb.
    injection Hza as ->. injection Hzb as ->.
    rewrite ltb_key, key_m0, Hb. simpl. exact key_m0.
  - rewrite ltb_key, Ha, Hb. simpl. destruct (lexltb kb ka); assumption.
Qed.

Lemma clamp_key (value min max : float) (kv kmin kmax : Z * Z * Z) :
  key value = Some kv -> key min = Some kmin -> key max = Some kmax ->
  key (clamp value min max)
  = Some (let m := if lexltb kv kmin then kmin else kv in
          if lexltb kmax m then kmax else m).
Proof.
  intros Hv Hmin Hmax. unfold clamp.
  apply min_pair_key; [|exact Hmax]. now apply max_pair_key.
Qed.

Lemma clamp_nan (min max : float) (value : float) :
  is_nan value = true -> clamp value min max = nan.
Proof.
  intro Hn. unfold clamp. rewrite (max_nan_l _ _ Hn).
  now apply min_nan_l.
Qed.

End ClampFacts.

(** ** [Math.max] and [Math.min] as the maximum and minimum of a total order *)
Module RefinedOrder.
Import IEEE IEEEFacts FloatTactics ClampFacts Utils.

Lemma rord_inj (x y : spec_float) :
  x <> S754_nan -> y <> S754_nan -> rord x = rord y -> x = y.
Proof.
  destruct x as [[|]|[|]| |[|] mx ex], y as [[|]|[|]| |[|] my ey];
    simpl; intros Hx Hy H; try congruence; try discriminate H;
    injection H; intros; f_equal; lia.
Qed.

Lemma rkey_inj (a b : float) (k : Z * Z * Z) :
  rkey a = Some k -> rkey b = Some k -> a = b.
Proof.
  unfold rkey. intros Ha Hb. apply Prim2SF_inj.
  destruct (Prim2SF a) eqn:Ea; try discriminate Ha;
    destruct (Prim2SF b) eqn:Eb; try discriminate Hb;
    apply rord_inj; congruence.
Qed.

Lemma rkey_not_nan (x : float) (k : Z * Z * Z) :
  rkey x = Some k -> is_nan x = false.
Proof.
  rewrite is_nan_key. unfold rkey, key.
  destruct (Prim2SF x); (discriminate || reflexivity).
Qed.

Lemma rkey_of_number (x : float) :
  is_nan x = false -> exists k, rkey x = Some k.
Proof.
  rewrite is_nan_key. unfold rkey, key.
  destruct (Prim2SF x); intro H; try discriminate H; eauto.
Qed.

Lemma isPosZero_rkey (x : float) :
  Math.isPosZero x = match rkey x with
                     | Some (0, 0, 1)%Z => true
                     | _ => false
                     end.
Proof.
  unfold Math.isPosZero, rkey. rewrite classify_spec.
  destruct (Prim2SF x) as [[|]|[|]| |[|] m e]; simpl; try reflexivity;
    match goal with |- context [if ?c then _ else _] => destruct c end;
    reflexivity.
Qed.

Lemma isNegZero_rkey (x : float) :
  Math.isNegZero x = match rkey x with
                     | Some (0, 0, 0)%Z => true
                     | _ => false
                     end.
Proof.
  unfold Math.isNegZero, rkey. rewrite classify_spec.
  destruct (Prim2SF x) as [[|]|[|]| |[|] m e]; simpl; try reflexivity;
    match goal with |- context [if ?c then _ else _] => destruct c end;
    reflexivity.
Qed.

Lemma is_key_001 (k : Z * Z * Z) :
  match k with (0, 0, 1)%Z => true | _ => false end = true -> k = (0, 0, 1)%Z.
Proof.
  destruct k as [[[| |] [| |]] [|[| |]|]]; simpl; intro H;
    (reflexivity || discriminate H).
Qed.

Lemma is_key_000 (k : Z * Z * Z) :
  match k with (0, 0, 0)%Z => true | _ => false end = true -> k = (0, 0, 0)%Z.
Proof.
  destruct k as [[[| |] [| |]] [| |]]; simpl; intro H;
    (reflexivity || discriminate H).
Qed.

Lemma rkey_zero : rkey zero = Some (0, 0, 1)%Z.
Proof. vm_compute. reflexivity. Qed.

Lemma rkey_neg_zero : rkey neg_zero = Some (0, 0, 0)%Z.
Proof. vm_compute. reflexivity. Qed.

(** [<] is the refined order, except that it does not separate the zeros. *)
Lemma ltb_rkey (a b : float) (ra rb : Z * Z * Z) :
  rkey a = Some ra -> rkey b = Some rb ->
  (a <? b)%float = lexltb ra rb && negb (Math.isNegZero a && Math.isPosZero b).
Proof.
  intros Ha Hb. rewrite isNegZero_rkey, isPosZero_rkey, Ha, Hb, ltb_key.
  revert Ha Hb. unfold rkey, key.
  destruct (Prim2SF a) as [[|]|[|]| |[|] ma ea];
    destruct (Prim2SF b) as [[|]|[|]| |[|] mb eb]; simpl;
    intros Ha Hb; try discriminate;
    injection Ha as <-; injection Hb as <-; try reflexivity;
    unfold lexltb; rewrite andb_true_r; reflexivity.
Qed.

Lemma max_pair (a b : float) (ra rb : Z * Z * Z) :
  rkey a = Some ra -> rkey b = Some rb ->
  Math.max [a; b] = if lexltb ra rb then b else a.
Proof.
  intros Ha Hb. unfold Math.max.
  rewrite maxLoop_first by exact (rkey_not_nan a ra Ha).
  simpl. rewrite (rkey_not_nan b rb Hb).
  destruct (Math.isPosZero b && Math.isNegZero a) eqn:Hz.
  - apply andb_prop in Hz. destruct Hz as [Hzb Hza].
    rewrite isPosZero_rkey, Hb in Hzb. rewrite isNegZero_rkey, Ha in Hza.
    apply is_key_001 in Hzb. apply is_key_000 in Hza. subst ra rb.
    rewrite (rkey_inj b zero _ Hb rkey_zero).
    replace (zero <? zero)%float with false by reflexivity. reflexivity.
  - rewrite (ltb_rkey a b ra rb Ha Hb), (andb_comm (Math.isNegZero a)), Hz.
    rewrite andb_true_r. reflexivity.
Qed.

Lemma min_pair (a b : float) (ra rb : Z * Z * Z) :
  rkey a = Some ra -> rkey b = Some rb ->
  Math.min [a; b] = if lexltb rb ra then b else a.
Proof.
  intros Ha Hb. unfold Math.min.
  rewrite minLoop_first by exact (rkey_not_nan a ra Ha).
  simpl. rewrite (rkey_not_nan b rb Hb).
  destruct (Math.isNegZero b && Math.isPosZero a) eqn:Hz.
  - apply andb_prop in Hz. destruct Hz as [Hzb Hza].
    rewrite isNegZero_rkey, Hb in Hzb. rewrite isPosZero_rkey, Ha in Hza.
    apply is_key_000 in Hzb. apply is_key_001 in Hza. subst ra rb.
    rewrite (rkey_inj b neg_zero _ Hb rkey_neg_zero).
    replace (neg_zero <? neg_zero)%float with false by reflexivity.
    reflexivity.
  - rewrite (ltb_rkey b a rb ra Hb Ha), Hz, andb_true_r. reflexivity.
Qed.

End RefinedOrder.

(** ** The contract of [clamp] *)
Module ClampSpec.
Import IEEE IEEEFacts FloatTactics ClampFacts RefinedOrder Utils.

Lemma max_nan_r (a b : float) : is_nan b = true -> Math.max [a; b] = nan.
Proof.
  intro Hb. destruct (is_nan a) eqn:Ha; [now apply max_nan_l|].
  unfold Math.max. rewrite maxLoop_first by exact Ha. simpl. now rewrite Hb.
Qed.

Lemma min_nan_r (a b : float) : is_nan b = true -> Math.min [a; b] = nan.
Proof.
  intro Hb. destruct (is_nan a) eqn:Ha; [now apply min_nan_l|].
  unfold Math.min. rewrite minLoop_first by exact Ha. simpl. now rewrite Hb.
Qed.

(** A NaN in any position makes [clamp] return NaN. *)
Lemma clamp_nan_any (value min max : float) :
  is_nan value || is_nan min || is_nan max = true ->
  clamp value min max = nan.
Proof.
  intro H. unfold clamp.
  destruct (is_nan max) eqn:Hmax; [now apply min_nan_r|].
  apply min_nan_l. rewrite orb_false_r in H.
  destruct (is_nan value) eqn:Hv.
  - now rewrite max_nan_l.
  - now rewrite max_nan_r.
Qed.

(** On numbers [clamp] is the minimum with [max] of the maximum with [min],
    in the order that puts [-0] below [+0]. *)
Lemma clamp_pair (value min max : float) (rv rmin rmax : Z * Z * Z) :
  rkey value = Some rv -> rkey min = Some rmin -> rkey max = Some rmax ->
  exists r rr, clamp value min max = r /\ rkey r = Some rr
    /\ rr = (let m := if lexltb rv rmin then rmin else rv in
             if lexltb rmax m then rmax else m).
Proof.
  intros Hv Hmin Hmax. unfold clamp.
  rewrite (max_pair value min rv rmin Hv Hmin).
  destruct (lexltb rv rmin) eqn:E1; cbv zeta.
  - rewrite (min_pair min max rmin rmax Hmin Hmax).
    destruct (lexltb rmax rmin); eauto.
  - rewrite (min_pair value max rv rmax Hv Hmax).
    destruct (lexltb rmax rv); eauto.
Qed.

(** Split on every comparison of two explicit keys, innermost first. *)
Ltac split_lex :=
  repeat (match goal with
          | |- context [lexltb (?a1, ?a2, ?a3) (?b1, ?b2, ?b3)] =>
              destruct (lexltb (a1, a2, a3) (b1, b2, b3)) eqn:?
          end; cbv iota).

Lemma clamp_idempotent (value min max : float) :
  clamp (clamp value min max) min max = clamp value min max.
Proof.
  destruct (is_nan value || is_nan min || is_nan max) eqn:Hn.
  - rewrite (clamp_nan_any _ _ _ Hn). now apply clamp_nan_any.
  - apply orb_false_elim in Hn. destruct Hn as [Hn Hmax].
    apply orb_false_elim in Hn. destruct Hn as [Hv Hmin].
    destruct (rkey_of_number _ Hv) as [rv Kv].
    destruct (rkey_of_number _ Hmin) as [rmin Kmin].
    destruct (rkey_of_number _ Hmax) as [rmax Kmax].
    destruct (clamp_pair value min max rv rmin rmax Kv Kmin Kmax)
      as (r & rr & -> & Kr & Er).
    destruct (clamp_pair r min max rr rmin rmax Kr Kmin Kmax)
      as (r' & rr' & -> & Kr' & Er').
    apply (rkey_inj r' r rr'); [exact Kr'|].
    rewrite Kr. f_equal. subst rr' rr.
    destruct rv as [[v1 v2] v3], rmin as [[l1 l2] l3], rmax as [[h1 h2] h3].
    cbv zeta. split_lex;
      try reflexivity; unfold lexltb in *;
      first [exfalso; lia | repeat f_equal; lia].
Qed.

Lemma key_of_number (x : float) :
  is_nan x = false -> exists k, key x = Some k.
Proof. rewrite is_nan_key. destruct (key x); [eauto|discriminate]. Qed.

Lemma leb_numbers (x y : float) :
  (x <=? y)%float = true -> is_nan x = false /\ is_nan y = false.
Proof.
  rewrite leb_key, !is_nan_key.
  destruct (key x), (key y); simpl; intro H; try discriminate H; auto.
Qed.

Lemma clamp_within (value min max : float) :
  (min <=? max)%float = true -> is_nan value = false ->
  within min max (clamp value min max) = true.
Proof.
  intros Hle Hv. destruct (leb_numbers _ _ Hle) as [Hmin Hmax].
  destruct (key_of_number _ Hv) as [[[v1 v2] v3] Kv].
  destruct (key_of_number _ Hmin) as [[[l1 l2] l3] Kmin].
  destruct (key_of_number _ Hmax) as [[[h1 h2] h3] Kmax].
  unfold within.
  rewrite leb_key in Hle. rewrite !leb_key.
  rewrite (clamp_key _ _ _ _ _ _ Kv Kmin Kmax), Kmin, Kmax in *.
  cbv zeta. unfold keyLeb in *. split_lex;
    unfold lexleb, lexltb, lexeqb in *; lia.
Qed.

Lemma clamp_fixes_range (value min max : float) :
  within min max value = true -> (clamp value min max =? value)%float = true.
Proof.
  unfold within. intro H. apply andb_prop in H. destruct H as [H1 H2].
  destruct (leb_numbers _ _ H1) as [Hmin Hv].
  destruct (leb_numbers _ _ H2) as [_ Hmax].
  destruct (key_of_number _ Hv) as [[[v1 v2] v3] Kv].
  destruct (key_of_number _ Hmin) as [[[l1 l2] l3] Kmin].
  destruct (key_of_number _ Hmax) as [[[h1 h2] h3] Kmax].
  rewrite leb_key in H1, H2. rewrite eqb_key.
  rewrite (clamp_key _ _ _ _ _ _ Kv Kmin Kmax).
  rewrite Kv, ?Kmin, ?Kmax in *.
  cbv zeta. unfold keyLeb, keyEqb in *. split_lex;
    unfold lexleb, lexltb, lexeqb in *; lia.
Qed.

(** C9, as the code has it: for [min <= max], [clamp] of a number (a value
    that is not NaN) lies in [[min, max]]; a value already in [[min, max]]
    is returned (equal to the result under [===]); [clamp] of NaN is NaN;
    and [clamp] is idempotent for every value, NaN included. *)
Theorem clamp_contract (value min max : float) :
  (min <=? max)%float = true ->
  (is_nan value = false -> within min max (clamp value min max) = true)
  /\ (within min max value = true ->
      (clamp value min max =? value)%float = true)
  /\ (is_nan value = true -> clamp value min max = nan)
  /\ clamp (clamp value min max) min max = clamp value min max.
Proof.
  intro Hle. repeat split.
  - now apply clamp_within.
  - apply clamp_fixes_range.
  - apply clamp_nan.
  - apply clamp_idempotent.
Qed.

(** C9 as stated fails on NaN: [clamp(NaN, 0, 1)] is NaN, which is not in
    [[0, 1]]. *)
Lemma clamp_nan_not_within :
  ~ (forall value min max : float,
       (min <=? max)%float = true ->
       within min max (clamp value min max) = true).
Proof.
  intro H. specialize (H nan 0%float 1%float eq_refl).
  vm_compute in H. discriminate H.
Qed.

Lemma clamp_contract_witness :
  within 0 1 (clamp 1.5 0 1) = true
  /\ (clamp 0.25 0 1 =? 0.25)%float = true
  /\ clamp nan 0 1 = nan
  /\ clamp (clamp 1.5 0 1) 0 1 = clamp 1.5 0 1.
Proof.
  split; [|split; [|split]].
  - apply (clamp_contract 1.5 0 1); reflexivity.
  - apply (clamp_contract 0.25 0 1); reflexivity.
  - apply (clamp_contract nan 0 1); reflexivity.
  - apply (clamp_contract 1.5 0 1); reflexivity.
Defined.

End ClampSpec.

(** ** Rounding to binary64 never turns a non-zero difference into zero *)
Module Rounding.
Import IEEE.

#[local] Open Scope Z_scope.

(** A mantissa of [d] binary digits is at least [2 ^ (d - 1)]. *)
Lemma digits2_pos_lower (m : positive) :
  2 ^ (Z.pos (digits2_pos m) - 1) <= Z.pos m.
Proof.
  induction m as [m IH|m IH|]; simpl digits2_pos.
  - rewrite Pos2Z.inj_succ.
    replace (Z.succ (Z.pos (digits2_pos m)) - 1)
      with (Z.succ (Z.pos (digits2_pos m) - 1)) by lia.
    rewrite Z.pow_succ_r by lia. lia.
  - rewrite Pos2Z.inj_succ.
    replace (Z.succ (Z.pos (digits2_pos m)) - 1)
      with (Z.succ (Z.pos (digits2_pos m) - 1)) by lia.
    rewrite Z.pow_succ_r by lia. lia.
  - simpl. lia.
Qed.

Lemma digits2_pos_iter (m d : positive) :
  digits2_pos (Pos.iter xO m d) = (digits2_pos m + d)%positive.
Proof.
  induction d as [|d IH] using Pos.peano_ind.
  - simpl. lia.
  - rewrite Pos.iter_succ. simpl. rewrite IH. lia.
Qed.

(** [shr_1] halves the mantissa; [p] of them divide it by [2 ^ p]. *)
Lemma shr_1_m (mrs : shr_record) :
  0 <= shr_m mrs -> shr_m (shr_1 mrs) = shr_m mrs / 2.
Proof.
  destruct mrs as [m r s]. simpl. intro H.
  destruct m as [|[p|p|]|p]; simpl; try reflexivity; try lia.
  - apply (Z.div_unique _ _ _ 1); lia.
  - apply (Z.div_unique _ _ _ 0); lia.
Qed.

Lemma iter_shr_1_m (p : positive) (mrs : shr_record) :
  0 <= shr_m mrs ->
  shr_m (iter_pos shr_1 p mrs) = shr_m mrs / 2 ^ Z.pos p.
Proof.
  revert mrs. induction p as [p IH|p IH|]; intros mrs H; simpl iter_pos.
  - assert (H1 : 0 <= shr_m (shr_1 mrs))
      by (rewrite shr_1_m by exact H; apply Z.div_pos; lia).
    assert (H2 : 0 <= shr_m (iter_pos shr_1 p (shr_1 mrs)))
      by (rewrite IH by exact H1; apply Z.div_pos;
          [exact H1|apply Z.pow_pos_nonneg; lia]).
    rewrite (IH _ H2), (IH _ H1), (shr_1_m _ H).
    rewrite !Z.div_div by (try apply Z.pow_pos_nonneg; lia).
    f_equal. rewrite Pos2Z.inj_xI. rewrite <- Z.pow_add_r by lia.
    replace (2 * Z.pos p + 1) with (Z.succ (Z.pos p + Z.pos p)) by lia.
    rewrite Z.pow_succ_r by lia. reflexivity.
  - assert (H2 : 0 <= shr_m (iter_pos shr_1 p mrs))
      by (rewrite IH by exact H; apply Z.div_pos;
          [exact H|apply Z.pow_pos_nonneg; lia]).
    rewrite (IH _ H2), (IH _ H).
    rewrite !Z.div_div by (try apply Z.pow_pos_nonneg; lia).
    f_equal. rewrite Pos2Z.inj_xO, <- Z.pow_add_r by lia. f_equal. lia.
  - rewrite (shr_1_m _ H). reflexivity.
Qed.

(** Binary64: [prec = 53], [emax = 1024], so [emin = -1074]. *)
Lemma fexp_ge_emin (e : Z) : -1074 <= fexp prec emax e.
Proof. unfold fexp, emin, prec, emax. lia. Qed.

(** Shifting a positive mantissa to its canonical exponent keeps at least
    its leading digit. *)
Lemma shr_fexp_pos (m : positive) (e : Z) :
  -1074 <= e ->
  0 < shr_m (fst (shr_fexp prec emax (Z.pos m) e loc_Exact))
  /\ -1074 <= snd (shr_fexp prec emax (Z.pos m) e loc_Exact).
Proof.
  intro He. unfold shr_fexp, shr. simpl Zdigits2. simpl shr_record_of_loc.
  pose proof (digits2_pos_lower m) as Hd.
  destruct (fexp prec emax (Z.pos (digits2_pos m) + e) - e) as [|p|p] eqn:En;
    simpl fst; simpl snd; simpl shr_m; try (split; lia).
  rewrite iter_shr_1_m by (simpl; lia). simpl shr_m.
  unfold fexp, emin, prec, emax in En.
  split; [|lia].
  apply Z.div_str_pos. split; [apply Z.pow_pos_nonneg; lia|].
  apply Z.le_trans with (2 ^ (Z.pos (digits2_pos m) - 1)); [|exact Hd].
  apply Z.pow_le_mono_r; lia.
Qed.

Lemma binary_round_aux_nonzero (s : bool) (m : positive) (e : Z) :
  -1074 <= e ->
  sfNonzeroNumber (binary_round_aux prec emax s (Z.pos m) e loc_Exact) = true.
Proof.
  intro He. unfold binary_round_aux.
  destruct (shr_fexp_pos m e He) as [H1 H2].
  destruct (shr_fexp prec emax (Z.pos m) e loc_Exact) as [mrs' e'].
  simpl fst in H1. simpl snd in H2.
  assert (Hr : 0 < round_nearest_even (shr_m mrs') (loc_of_shr_record mrs')).
  { unfold round_nearest_even.
    destruct (loc_of_shr_record mrs') as [|[| |]]; try lia.
    destruct (Z.even (shr_m mrs')); lia. }
  destruct (round_nearest_even (shr_m mrs') (loc_of_shr_record mrs'))
    as [|m2|m2]; try lia.
  destruct (shr_fexp_pos m2 e' H2) as [H3 H4].
  destruct (shr_fexp prec emax (Z.pos m2) e' loc_Exact) as [mrs'' e''].
  simpl fst in H3.
  destruct (shr_m mrs'') as [|m3|m3]; try lia.
  now destruct (e'' <=? emax - prec).
Qed.

Lemma binary_normalize_nonzero (M e : Z) :
  M <> 0 -> -1074 <= e ->
  sfNonzeroNumber (binary_normalize prec emax M e false) = true.
Proof.
  intros HM He.
  assert (H : forall s m,
             sfNonzeroNumber (binary_round prec emax s m e) = true).
  { intros s m. unfold binary_round.
    destruct (shl_align m e (fexp prec emax (Z.pos (digits2_pos m) + e)))
      as [mz ez] eqn:Ea.
    apply binary_round_aux_nonzero.
    unfold shl_align in Ea.
    pose proof (fexp_ge_emin (Z.pos (digits2_pos m) + e)).
    destruct (fexp prec emax (Z.pos (digits2_pos m) + e) - e);
      apply (f_equal snd) in Ea; cbn [snd] in Ea; lia. }
  destruct M as [|m|m]; [congruence| |]; apply H.
Qed.

Lemma canonical_exp (m : positive) (e : Z) :
  bounded prec emax m e = true ->
  fexp prec emax (Z.pos (digits2_pos m) + e) = e /\ -1074 <= e.
Proof.
  unfold bounded, canonical_mantissa. intro H.
  apply andb_prop in H. destruct H as [H _]. apply Z.eqb_eq in H.
  split; [exact H|]. rewrite <- H. apply fexp_ge_emin.
Qed.

(** Aligned mantissas of two canonical numbers with different exponents
    differ. *)
Lemma aligned_mantissas_differ (mx my d : positive) (ex ey : Z) :
  bounded prec emax mx ex = true -> bounded prec emax my ey = true ->
  ex - ey = Z.neg d -> Pos.iter xO my d <> mx.
Proof.
  intros Hx Hy Hd E.
  destruct (canonical_exp _ _ Hx) as [Cx _].
  destruct (canonical_exp _ _ Hy) as [Cy _].
  rewrite <- E, digits2_pos_iter in Cx.
  replace (Z.pos (digits2_pos my + d) + ex)
    with (Z.pos (digits2_pos my) + ey) in Cx by lia.
  lia.
Qed.

(** The difference of two distinct finite binary64 numbers is neither a
    zero nor NaN (gradual underflow). *)
Lemma SF64sub_distinct (x y : spec_float) :
  valid_binary x = true -> valid_binary y = true ->
  sfFinite x = true -> sfFinite y = true ->
  SFeqb x y = false ->
  sfNonzeroNumber (SF64sub y x) = true.
Proof.
  destruct x as [sx|sx| |sx mx ex], y as [sy|sy| |sy my ey];
    try discriminate; try reflexivity.
  unfold valid_binary, SpecFloat.valid_binary. intros Vx Vy _ _ Hne.
  unfold SF64sub, SFsub.
  destruct (canonical_exp _ _ Vx) as [_ Ex].
  destruct (canonical_exp _ _ Vy) as [_ Ey].
  apply binary_normalize_nonzero; [|lia].
  unfold SFeqb, SFcompare in Hne.
  unfold shl_align.
  destruct (Z.compare_spec ey ex) as [E|L|L].
  - subst ey. rewrite Z.min_id, Z.sub_diag. cbn [fst].
    rewrite Z.compare_refl, Pos.compare_cont_spec in Hne. simpl in Hne.
    assert (my <> mx \/ sx <> sy).
    { destruct (Pos.eq_dec my mx) as [->|]; [|now left]. right.
      rewrite Pos.compare_refl in Hne.
      destruct sx, sy; simpl in Hne; congruence. }
    destruct sx, sy; unfold cond_Zopp; try lia;
      (destruct H as [H|H]; [|congruence]);
      intro E; apply H; lia.
  - rewrite Z.min_l by lia. rewrite Z.sub_diag. cbn [fst].
    destruct (ey - ex) as [|d|d] eqn:Ed; try lia. cbn [fst].
    pose proof (aligned_mantissas_differ my mx d ey ex Vy Vx Ed).
    destruct sx, sy; unfold cond_Zopp; lia.
  - rewrite Z.min_r by lia. rewrite Z.sub_diag. cbn [fst].
    destruct (ex - ey) as [|d|d] eqn:Ed; try lia. cbn [fst].
    pose proof (aligned_mantissas_differ mx my d ex ey Vx Vy Ed).
    destruct sx, sy; unfold cond_Zopp; lia.
Qed.

End Rounding.

(** ** [mapRange] *)
Module MapRangeFacts.
Import IEEE IEEEFacts ClampFacts Utils.

Lemma SFeqb_refl_finite (s : bool) (m : positive) (e : Z) :
  SFeqb (S754_finite s m e) (S754_finite s m e) = true.
Proof.
  unfold SFeqb, SFcompare.
  rewrite Z.compare_refl, Pos.compare_cont_refl. now destruct s.
Qed.

Lemma is_nan_spec (x : float) : is_nan x = sfNaN (Prim2SF x).
Proof.
  unfold is_nan. rewrite eqb_spec.
  destruct (Prim2SF x) as [s|[|]| |s m e]; try reflexivity.
  now rewrite SFeqb_refl_finite.
Qed.

Lemma is_zero_spec (x : float) : is_zero x = sfZero (Prim2SF x).
Proof.
  unfold is_zero. rewrite eqb_spec.
  replace (Prim2SF zero) with (S754_zero false) by reflexivity.
  now destruct (Prim2SF x) as [s|[|]| |[|] m e].
Qed.

Lemma is_finite_spec (x : float) : is_finite x = sfFinite (Prim2SF x).
Proof.
  unfold is_finite, is_infinity. rewrite is_nan_spec, eqb_spec, abs_spec.
  rewrite Prim2SF_infinity.
  now destruct (Prim2SF x) as [s|[|]| |[|] m e].
Qed.

(** [x - x] is [+0] for every finite [x]. *)
Lemma SF64sub_diag (x : spec_float) :
  sfFinite x = true -> SF64sub x x = S754_zero false.
Proof.
  destruct x as [[|]|s| |s m e]; try discriminate; try reflexivity.
  intros _. unfold SF64sub, SFsub. rewrite Z.sub_diag. reflexivity.
Qed.

(** The difference of two equal numbers is a zero or NaN. *)
Lemma SF64sub_equal (x y : spec_float) :
  SFeqb x y = true -> sfZero (SF64sub y x) || sfNaN (SF64sub y x) = true.
Proof.
  unfold SFeqb.
  destruct x as [sx|sx| |sx mx ex], y as [sy|sy| |sy my ey];
    intro H; simpl in H; try discriminate H;
    try (now destruct sx, sy).
  assert (E : sx = sy /\ ex = ey /\ mx = my).
  { rewrite Pos.compare_cont_spec in H. simpl in H.
    destruct sx, sy; try discriminate H;
      destruct (Z.compare_spec ex ey); try discriminate H;
      destruct (Pos.compare_spec mx my); try discriminate H; auto. }
  destruct E as (-> & -> & ->).
  unfold SF64sub, SFsub. rewrite Z.sub_diag. reflexivity.
Qed.

Lemma SF64div_by_zero (n z : spec_float) :
  sfZero z || sfNaN z = true -> sfFinite (SF64div n z) = false.
Proof.
  destruct z as [sz|sz| |sz mz ez]; try discriminate; intros _;
    now destruct n as [sn|sn| |sn mn en].
Qed.

Lemma SF64add_not_finite (q o : spec_float) :
  sfFinite q = false -> sfFinite (SF64add q o) = false.
Proof.
  destruct q as [sq|sq| |sq mq eq]; try discriminate; intros _;
    destruct o as [so|so| |so mo eo]; try reflexivity;
    now destruct sq, so.
Qed.

(** With [inMin] equal to [inMax] the quotient is a division by zero (or by
    NaN), and the result is never a finite number. *)
Lemma mapRange_equal_bounds (value inMin inMax outMin outMax : float) :
  (inMin =? inMax)%float = true ->
  is_finite (mapRange value inMin inMax outMin outMax) = false.
Proof.
  rewrite eqb_spec. intro H. rewrite is_finite_spec. unfold mapRange.
  rewrite add_spec, div_spec, (sub_spec inMax inMin).
  apply SF64add_not_finite, SF64div_by_zero, SF64sub_equal, H.
Qed.

Lemma SF64mul_zero_l (s : bool) (d : spec_float) :
  sfFinite d = true -> sfZero (SF64mul (S754_zero s) d) = true.
Proof. now destruct d as [sd|sd| |sd md ed]. Qed.

Lemma SF64div_zero_l (z e : spec_float) :
  sfZero z = true -> sfZero e = false -> sfNaN e = false ->
  sfZero (SF64div z e) = true.
Proof.
  destruct z as [sz|sz| |sz mz ez]; try discriminate; intros _.
  now destruct e as [se|se| |se me ee].
Qed.

Lemma SF64add_zero_l (z o : spec_float) :
  sfZero z = true -> sfFinite o = true -> SFeqb (SF64add z o) o = true.
Proof.
  destruct z as [sz|sz| |sz mz ez]; try discriminate; intros _.
  destruct o as [so|so| |so mo eo]; try discriminate; intros _.
  - now destruct sz, so.
  - apply SFeqb_refl_finite.
Qed.

(** If [outMax - outMin] is finite, so is [outMin]. *)
Lemma SF64sub_finite_r (x y : spec_float) :
  sfFinite (SF64sub x y) = true -> sfFinite y = true.
Proof.
  destruct y as [sy|sy| |sy my ey]; try reflexivity;
    destruct x as [sx|sx| |sx mx ex]; try discriminate;
    now destruct sx, sy.
Qed.

(** The lower endpoint, when the divisor is a number other than zero. *)
Lemma mapRange_lower_endpoint (inMin inMax outMin outMax : float) :
  is_finite inMin = true ->
  is_zero (inMax - inMin) = false -> is_nan (inMax - inMin) = false ->
  is_finite (outMax - outMin) = true ->
  (mapRange inMin inMin inMax outMin outMax =? outMin)%float = true.
Proof.
  rewrite !is_finite_spec, is_zero_spec, is_nan_spec, eqb_spec.
  unfold mapRange.
  rewrite add_spec, div_spec, mul_spec, !sub_spec.
  intros Ha Hz Hn Hd. rewrite (SF64sub_diag _ Ha).
  apply SF64add_zero_l.
  - apply SF64div_zero_l; [|exact Hz|exact Hn].
    now apply SF64mul_zero_l.
  - exact (SF64sub_finite_r _ _ Hd).
Qed.

(** Two distinct finite numbers have a difference that is a number other
    than zero. *)
Lemma sub_distinct (a b : float) :
  is_finite a = true -> is_finite b = true -> (a =? b)%float = false ->
  is_zero (b - a) = false /\ is_nan (b - a) = false.
Proof.
  rewrite !is_finite_spec, eqb_spec, is_zero_spec, is_nan_spec, sub_spec.
  intros Ha Hb Hne.
  pose proof (Rounding.SF64sub_distinct _ _ (Prim2SF_valid a)
                (Prim2SF_valid b) Ha Hb Hne) as H.
  now destruct (SF64sub (Prim2SF b) (Prim2SF a)).
Qed.

(** C10, as the code has it.  The division by [inMax - inMin] is unguarded:
    with [inMin] equal to [inMax] the result is never a finite number.
    For finite [inMin] and [inMax] that differ, and a finite
    [outMax - outMin], the lower endpoint is mapped to [outMin] (equal
    under [===]). *)
Theorem mapRange_contract (value inMin inMax outMin outMax : float) :
  ((inMin =? inMax)%float = true ->
   is_finite (mapRange value inMin inMax outMin outMax) = false)
  /\ (is_finite inMin = true -> is_finite inMax = true ->
      (inMin =? inMax)%float = false ->
      is_finite (outMax - outMin) = true ->
      (mapRange inMin inMin inMax outMin outMax =? outMin)%float = true).
Proof.
  split.
  - apply mapRange_equal_bounds.
  - intros Ha Hb Hne Hd.
    destruct (sub_distinct inMin inMax Ha Hb Hne) as [Hz Hn].
    now apply mapRange_lower_endpoint.
Qed.

(** C10 as stated fails at the upper endpoint, which is exact only up to
    rounding: [mapRange(3, 0, 3, 0, 0.1)] is [0.10000000000000002]. *)
Lemma mapRange_upper_endpoint_inexact :
  ~ (forall inMin inMax outMin outMax : float,
       (inMin =? inMax)%float = false ->
       (mapRange inMax inMin inMax outMin outMax =? outMax)%float = true).
Proof.
  intro H. specialize (H 0 3 0 0.1 eq_refl)%float.
  vm_compute in H. discriminate H.
Qed.

Lemma mapRange_contract_witness :
  is_finite (mapRange 5 2 2 0 1) = false
  /\ (mapRange 0 0 3 0.1 0.3 =? 0.1)%float = true.
Proof.
  split.
  - apply (mapRange_contract 5 2 2 0 1). reflexivity.
  - apply (mapRange_contract 0 0 3 0.1 0.3); reflexivity.
Defined.

End MapRangeFacts.

(** ** The result page *)
Module ResultPageFacts.
Import ResultPage.

(** [setFormula] is never called: the page holds [sampleFormula] for good. *)
Lemma formula_invariant (s : State) :
  reachable s -> formula s = sampleFormula.
Proof.
  induction 1 as [|s e _ IH]; [reflexivity|]. now destruct e.
Qed.

Lemma timer_shows_sample :
  reachable (step initial TimerFired)
  /\ displayed (step initial TimerFired) = Some sampleFormula.
Proof. split; [apply reach_step, reach_initial | reflexivity]. Qed.

(** C1, on the page: once the timer has fired the page displays
    [sampleFormula], whose concentrations add up to 91, not to 100 within
    1e-6. *)
Theorem sampleFormula_total :
  reachable (step initial TimerFired)
  /\ displayed (step initial TimerFired) = Some sampleFormula
  /\ totalConcentration sampleFormula = 91%float
  /\ normalized sampleFormula = false.
Proof.
  destruct timer_shows_sample as [Hr Hd].
  split; [exact Hr|]. split; [exact Hd|].
  split; vm_compute; reflexivity.
Qed.


(** C7: in every state the page can reach, each score of the metrics record
    it holds lies in [[0, 100]]. *)
Theorem metrics_are_scores (s : State) :
  reachable s ->
  Forall (fun x => isScore x = true)
    (metricValues (Formula.metrics (formula s))).
Proof.
  intro Hr. rewrite (formula_invariant s Hr).
  repeat constructor.
Qed.

Lemma metrics_are_scores_witness :
  Forall (fun x => isScore x = true)
    (metricValues (Formula.metrics (formula (step initial TimerFired)))).
Proof.
  apply (metrics_are_scores (step initial TimerFired)).
  apply reach_step, reach_initial.
Defined.

(** *** The exported record *)

Lemma notes_described (notes : list Note.t) :
  forallb isDescribedNote (map noteToJSON notes) = true.
Proof. induction notes as [|n notes IH]; [reflexivity|exact IH]. Qed.

Lemma formulaToJSON_shape (f : Formula.t) :
  exportedShape (formulaToJSON f) = true.
Proof.
  unfold exportedShape, formulaToJSON. cbn.
  now rewrite !notes_described.
Qed.

(** C2, as the code has it: whatever the page exports, the [formula] field
    of the exported object has exactly the properties [name],
    [description], [topNotes], [middleNotes], [baseNotes] and [metrics];
    each tier is a list of [{name, concentration, sustainable}]; [metrics]
    has exactly the keys [longevity], [projection], [uniqueness],
    [sustainability], [ifraCompliance]; and there is neither a
    [heartNotes] nor a [physioCorrections] property. *)
Theorem exported_formula_shape
    (blocked : bool) (parse : string -> option JSON.value)
    (getItem : string -> option string) (now : string) (s : State)
    (out : JSON.value) :
  handleExport blocked parse getItem now s = Some out ->
  exists f, JSON.get "formula" out = Some f
    /\ exportedShape f = true
    /\ JSON.get "heartNotes" f = None
    /\ JSON.get "physioCorrections" f = None.
Proof.
  unfold handleExport. intro H.
  destruct blocked; [discriminate H|].
  destruct (parseStored parse (getItem "aether_calibration"%string));
    [|discriminate H].
  destruct (parseStored parse (getItem "aether_neuro_brief"%string));
    [|discriminate H].
  injection H as <-. exists (formulaToJSON (formula s)).
  split; [reflexivity|]. split; [apply formulaToJSON_shape|].
  split; reflexivity.
Qed.

(** C2 as stated fails: the record exported from the initial page has no
    [heartNotes] tier, no [physioCorrections] and a fifth metric. *)
Lemma exported_formula_not_described :
  exists out f,
    handleExport false neverParsed emptyStorage "2026-01-15T09:00:00.000Z"
      initial = Some out
    /\ JSON.get "formula" out = Some f
    /\ describedShape f = false.
Proof. do 2 eexists. repeat split. Qed.

Lemma exported_formula_shape_witness :
  exists f,
    JSON.get "formula"
      (JSON.JObject
         [ ("formula", formulaToJSON sampleFormula);
           ("calibration", JSON.JNull);
           ("neuroBrief", JSON.JNull);
           ("exportedAt", JSON.JString "2026-01-15T09:00:00.000Z") ]%string)
    = Some f
    /\ exportedShape f = true
    /\ JSON.get "heartNotes" f = None
    /\ JSON.get "physioCorrections" f = None.
Proof.
  apply (exported_formula_shape false neverParsed emptyStorage
           "2026-01-15T09:00:00.000Z" initial).
  reflexivity.
Defined.

End ResultPageFacts.

(** ** The engine: renormalisation *)
Module EngineFacts.
Import Engine.

#[local] Open Scope Q_scope.

Lemma sumConcentration_app (xs ys : list FormulaComponent) :
  sumConcentration (xs ++ ys) == sumConcentration xs + sumConcentration ys.
Proof.
  induction xs as [|c xs IH]; simpl.
  - now rewrite Qplus_0_l.
  - rewrite IH. now rewrite Qplus_assoc.
Qed.

Lemma sumConcentration_scale (k : Q) (cs : list FormulaComponent) :
  sumConcentration (map (scaleComponent k) cs) == sumConcentration cs * k.
Proof.
  induction cs as [|c cs IH]; simpl.
  - now rewrite Qmult_0_l.
  - rewrite IH. now rewrite Qmult_plus_distr_l.
Qed.

Lemma components_scale (k : Q) (f : Formula) :
  components (scale k f) = map (scaleComponent k) (components f).
Proof. unfold components, scale, mapTiers. simpl. now rewrite !map_app. Qed.

Lemma total_scale (k : Q) (f : Formula) : total (scale k f) == total f * k.
Proof.
  unfold total. rewrite components_scale. apply sumConcentration_scale.
Qed.

(** Renormalisation brings a formula with a non-zero total to exactly 100. *)
Lemma renormalize_total (f : Formula) :
  ~ total f == 0 -> total (renormalize f) == 100.
Proof.
  intro Hnz. unfold renormalize. rewrite total_scale. now field.
Qed.

Lemma scale_one_same (k : Q) (cs : list FormulaComponent) :
  k == 1 -> Forall2 sameComponent (map (scaleComponent k) cs) cs.
Proof.
  intro Hk. induction cs as [|c cs IH]; simpl; constructor; [|exact IH].
  split; [reflexivity|]. simpl. rewrite Hk. now rewrite Qmult_1_r.
Qed.

(** C6: renormalising a formula whose total is already 100 leaves every
    component as it was: the same ingredients, in the same order, at the
    same concentrations. *)
Theorem renormalize_idempotent (f : Formula) :
  total f == 100 ->
  Forall2 sameComponent (components (renormalize f)) (components f).
Proof.
  intro H. unfold renormalize. rewrite components_scale.
  apply scale_one_same. rewrite H. reflexivity.
Qed.

Lemma renormalize_idempotent_witness :
  Forall2 sameComponent
    (components (renormalize pyramidFormula)) (components pyramidFormula).
Proof. apply (renormalize_idempotent pyramidFormula). reflexivity. Defined.

End EngineFacts.

(** ** Further properties of the front end *)
Module MoreFacts.
Import IEEE IEEEFacts FloatTactics Utils ResultPage.

(** A NaN in any argument of [clamp] comes out as NaN. *)
Theorem clamp_propagates_nan (value min max : float) :
  is_nan value || is_nan min || is_nan max = true ->
  is_nan (clamp value min max) = true.
Proof.
  intro H. now rewrite (ClampSpec.clamp_nan_any value min max H).
Qed.

Lemma clamp_propagates_nan_witness : is_nan (clamp 0.5 nan 1) = true.
Proof. apply (clamp_propagates_nan 0.5 nan 1). reflexivity. Defined.

(** A NaN coordinate passes none of the four tests: the mood is neutral. *)
Theorem nan_mood_is_neutral (valence arousal : float) :
  is_nan valence = true \/ is_nan arousal = true ->
  getMoodLabel valence arousal = "Neutral / Balanced"%string
  /\ getScentFamilies valence arousal
     = ["Woody"; "Aromatic"; "Floral"; "Balanced"]%string.
Proof.
  intro H. rewrite UtilsFacts.getMoodLabel_quadrant.
  rewrite UtilsFacts.getScentFamilies_quadrant.
  assert (Hq : quadrantOf valence arousal = Neutral).
  { unfold quadrantOf. destruct H as [H|H].
    - assert (Hg : gt valence 0.15 = false) by float_order.
      assert (Hl : lt valence (-0.15) = false) by float_order.
      rewrite Hg, Hl. reflexivity.
    - assert (Hg : gt arousal 0.15 = false) by float_order.
      assert (Hl : lt arousal (-0.15) = false) by float_order.
      rewrite Hg, Hl, !andb_false_r. reflexivity. }
  rewrite Hq. split; reflexivity.
Qed.

Lemma nan_mood_is_neutral_witness :
  getMoodLabel nan 0.9 = "Neutral / Balanced"%string
  /\ getScentFamilies nan 0.9
     = ["Woody"; "Aromatic"; "Floral"; "Balanced"]%string.
Proof. apply (nan_mood_is_neutral nan 0.9). left. reflexivity. Defined.

(** The page never replaces its formula: whatever happens, the formula it
    holds, and shows once loading is over, is [sampleFormula]. *)
Theorem page_keeps_sample_formula (s : State) :
  reachable s ->
  formula s = sampleFormula
  /\ (displayed s = None \/ displayed s = Some sampleFormula).
Proof.
  intro Hr. pose proof (ResultPageFacts.formula_invariant s Hr) as Hf.
  split; [exact Hf|]. unfold displayed. rewrite Hf.
  destruct (isLoading s); auto.
Qed.

Lemma page_keeps_sample_formula_witness :
  formula (step (step initial ShareClicked) TimerFired) = sampleFormula
  /\ (displayed (step (step initial ShareClicked) TimerFired) = None
      \/ displayed (step (step initial ShareClicked) TimerFired)
         = Some sampleFormula).
Proof.
  apply (page_keeps_sample_formula (step (step initial ShareClicked) TimerFired)).
  apply reach_step, reach_step, reach_initial.
Defined.

End MoreFacts.

(** ** More on the numeric helpers *)
Module NumericFacts.
Import IEEE IEEEFacts FloatTactics ClampFacts ClampSpec MapRangeFacts Utils.

(** *** [clamp] *)

Ltac clamp_keys value min max :=
  let kv := fresh "Kv" in
  let kmin := fresh "Kmin" in
  let kmax := fresh "Kmax" in
  match goal with
  | Hv : is_nan value = false, Hmin : is_nan min = false,
    Hmax : is_nan max = false |- _ =>
      destruct (key_of_number _ Hv) as [[[? ?] ?] kv];
      destruct (key_of_number _ Hmin) as [[[? ?] ?] kmin];
      destruct (key_of_number _ Hmax) as [[[? ?] ?] kmax];
      rewrite ?leb_key, ?ltb_key, ?eqb_key in *;
      rewrite ?(clamp_key _ _ _ _ _ _ kv kmin kmax);
      rewrite ?kv, ?kmin, ?kmax in *
  end.

(** Below the range [clamp] gives [min], above it gives [max]. *)
Theorem clamp_saturates (value min max : float) :
  (min <=? max)%float = true ->
  ((value <=? min)%float = true ->
   (clamp value min max =? min)%float = true)
  /\ ((max <=? value)%float = true ->
      (clamp value min max =? max)%float = true).
Proof.
  intro Hle. destruct (leb_numbers _ _ Hle) as [Hmin Hmax].
  split; intro H.
  - destruct (leb_numbers _ _ H) as [Hv _].
    clamp_keys value min max.
    cbv zeta. unfold keyLeb, keyEqb in *. split_lex;
      unfold lexleb, lexltb, lexeqb in *; lia.
  - destruct (leb_numbers _ _ H) as [_ Hv].
    clamp_keys value min max.
    cbv zeta. unfold keyLeb, keyEqb in *. split_lex;
      unfold lexleb, lexltb, lexeqb in *; lia.
Qed.

Lemma clamp_saturates_witness :
  (clamp (-3) 0 1 =? 0)%float = true /\ (clamp 7 0 1 =? 1)%float = true.
Proof.
  split.
  - apply (clamp_saturates (-3) 0 1); reflexivity.
  - apply (clamp_saturates 7 0 1); reflexivity.
Defined.

(** [clamp] is monotone in its first argument, for any two bounds that are
    numbers. *)
Theorem clamp_monotone (v1 v2 min max : float) :
  is_nan min = false -> is_nan max = false ->
  (v1 <=? v2)%float = true ->
  (clamp v1 min max <=? clamp v2 min max)%float = true.
Proof.
  intros Hmin Hmax H. destruct (leb_numbers _ _ H) as [H1 H2].
  destruct (key_of_number _ H1) as [[[a1 a2] a3] K1].
  destruct (key_of_number _ H2) as [[[b1 b2] b3] K2].
  destruct (key_of_number _ Hmin) as [[[l1 l2] l3] Kmin].
  destruct (key_of_number _ Hmax) as [[[h1 h2] h3] Kmax].
  rewrite leb_key in H. rewrite leb_key.
  rewrite (clamp_key _ _ _ _ _ _ K1 Kmin Kmax).
  rewrite (clamp_key _ _ _ _ _ _ K2 Kmin Kmax).
  rewrite K1, K2 in H. cbv zeta. unfold keyLeb in *. split_lex;
    unfold lexleb, lexltb, lexeqb in *; lia.
Qed.

Lemma clamp_monotone_witness :
  (clamp 0.25 0 1 <=? clamp 7 0 1)%float = true.
Proof. apply (clamp_monotone 0.25 7 0 1); reflexivity. Defined.

(** With the bounds the wrong way round ([max < min]) the result is [max],
    whatever the number clamped. *)
Theorem clamp_inverted_bounds (value min max : float) :
  (max <? min)%float = true -> is_nan value = false ->
  (clamp value min max =? max)%float = true.
Proof.
  intros Hlt Hv.
  assert (Hmax : is_nan max = false /\ is_nan min = false).
  { rewrite ltb_key in Hlt. rewrite !is_nan_key.
    destruct (key max), (key min); simpl in Hlt; try discriminate Hlt; auto. }
  destruct Hmax as [Hmax Hmin].
  clamp_keys value min max.
  cbv zeta. unfold keyLtb, keyEqb in *. split_lex;
    unfold lexleb, lexltb, lexeqb in *; lia.
Qed.

Lemma clamp_inverted_bounds_witness :
  (clamp 0.5 1 0 =? 0)%float = true.
Proof. apply (clamp_inverted_bounds 0.5 1 0); reflexivity. Defined.

(** *** NaN through the arithmetic *)

Lemma SF64sub_nan_l (x y : spec_float) :
  sfNaN x = true -> sfNaN (SF64sub x y) = true.
Proof. destruct x; try discriminate; reflexivity. Qed.

Lemma SF64sub_nan_r (x y : spec_float) :
  sfNaN y = true -> sfNaN (SF64sub x y) = true.
Proof. destruct y; try discriminate; now destruct x. Qed.

Lemma SF64mul_nan_l (x y : spec_float) :
  sfNaN x = true -> sfNaN (SF64mul x y) = true.
Proof. destruct x; try discriminate; reflexivity. Qed.

Lemma SF64mul_nan_r (x y : spec_float) :
  sfNaN y = true -> sfNaN (SF64mul x y) = true.
Proof. destruct y; try discriminate; now destruct x. Qed.

Lemma SF64div_nan_l (x y : spec_float) :
  sfNaN x = true -> sfNaN (SF64div x y) = true.
Proof. destruct x; try discriminate; reflexivity. Qed.

Lemma SF64div_nan_r (x y : spec_float) :
  sfNaN y = true -> sfNaN (SF64div x y) = true.
Proof. destruct y; try discriminate; now destruct x. Qed.

Lemma SF64add_nan_l (x y : spec_float) :
  sfNaN x = true -> sfNaN (SF64add x y) = true.
Proof. destruct x; try discriminate; reflexivity. Qed.

Lemma SF64add_nan_r (x y : spec_float) :
  sfNaN y = true -> sfNaN (SF64add x y) = true.
Proof. destruct y; try discriminate; now destruct x. Qed.

(** A NaN in any of its five arguments makes [mapRange] return NaN. *)
Theorem mapRange_propagates_nan
    (value inMin inMax outMin outMax : float) :
  is_nan value || is_nan inMin || is_nan inMax || is_nan outMin
    || is_nan outMax = true ->
  is_nan (mapRange value inMin inMax outMin outMax) = true.
Proof.
  rewrite !is_nan_spec. unfold mapRange.
  rewrite add_spec, div_spec, mul_spec, !sub_spec. intro H.
  repeat (apply orb_true_iff in H; destruct H as [H|H]).
  - now apply SF64add_nan_l, SF64div_nan_l, SF64mul_nan_l, SF64sub_nan_l.
  - now apply SF64add_nan_l, SF64div_nan_r, SF64sub_nan_r.
  - now apply SF64add_nan_l, SF64div_nan_r, SF64sub_nan_l.
  - now apply SF64add_nan_r.
  - now apply SF64add_nan_l, SF64div_nan_l, SF64mul_nan_r, SF64sub_nan_l.
Qed.

Lemma mapRange_propagates_nan_witness :
  is_nan (mapRange 0.5 0 1 nan 10) = true.
Proof. apply (mapRange_propagates_nan 0.5 0 1 nan 10). reflexivity. Defined.

(** *** [mapRange] onto a single point *)

Lemma SF64mul_zero_r (d : spec_float) (s : bool) :
  sfFinite d = true -> sfZero (SF64mul d (S754_zero s)) = true.
Proof. now destruct d as [sd|sd| |sd md ed]. Qed.

(** When [outMax] is [outMin] every value is mapped to [outMin], as long as
    [value - inMin] is finite and the input bounds are two distinct finite
    numbers. *)
Theorem mapRange_constant_output (value inMin inMax outMin : float) :
  is_finite (value - inMin) = true -> is_finite inMax = true ->
  (inMin =? inMax)%float = false -> is_finite outMin = true ->
  (mapRange value inMin inMax outMin outMin =? outMin)%float = true.
Proof.
  intros Hv Hb Hne Ho.
  assert (Ha : is_finite inMin = true).
  { rewrite is_finite_spec in *. rewrite sub_spec in Hv.
    exact (SF64sub_finite_r _ _ Hv). }
  destruct (sub_distinct inMin inMax Ha Hb Hne) as [Hz Hn].
  revert Hv Ho Hz Hn.
  rewrite !is_finite_spec, is_zero_spec, is_nan_spec, eqb_spec.
  unfold mapRange. rewrite add_spec, div_spec, mul_spec, !sub_spec.
  intros Hv Ho Hz Hn. rewrite (SF64sub_diag _ Ho).
  apply SF64add_zero_l; [|exact Ho].
  apply SF64div_zero_l; [|exact Hz|exact Hn].
  now apply SF64mul_zero_r.
Qed.

Lemma mapRange_constant_output_witness :
  (mapRange 0.3 0 1 7 7 =? 7)%float = true.
Proof. apply (mapRange_constant_output 0.3 0 1 7); reflexivity. Defined.

(** *** [lerp] *)

Lemma Prim2SF_zero : Prim2SF 0 = S754_zero false.
Proof. reflexivity. Qed.

Lemma is_infinity_spec (x : float) :
  is_infinity x
  = match Prim2SF x with S754_infinity _ => true | _ => false end.
Proof.
  unfold is_infinity. rewrite eqb_spec, abs_spec, Prim2SF_infinity.
  now destruct (Prim2SF x) as [s|[|]| |[|] m e].
Qed.

Lemma SF64add_zero_r (o z : spec_float) :
  sfZero z = true -> sfFinite o = true -> SFeqb (SF64add o z) o = true.
Proof.
  destruct z as [sz|sz| |sz mz ez]; try discriminate; intros _.
  destruct o as [so|so| |so mo eo]; try discriminate; intros _.
  - now destruct sz, so.
  - apply SFeqb_refl_finite.
Qed.

(** At [t = 0], [lerp] returns [start] when [end - start] is finite, and
    NaN when [end - start] overflows. *)
Theorem lerp_at_zero (start end_ : float) :
  (is_finite (end_ - start) = true ->
   (lerp start end_ 0 =? start)%float = true)
  /\ (is_infinity (end_ - start) = true ->
      is_nan (lerp start end_ 0) = true).
Proof.
  rewrite is_finite_spec, is_infinity_spec, is_nan_spec, eqb_spec.
  unfold lerp. rewrite add_spec, mul_spec, sub_spec, Prim2SF_zero.
  split; intro H.
  - apply SF64add_zero_r.
    + now apply SF64mul_zero_r.
    + exact (SF64sub_finite_r _ _ H).
  - destruct (SF64sub (Prim2SF end_) (Prim2SF start)); try discriminate H.
    now apply SF64add_nan_r.
Qed.

Lemma lerp_at_zero_witness :
  (lerp 0.1 0.7 0 =? 0.1)%float = true
  /\ is_nan (lerp (-1e308) 1e308 0) = true.
Proof.
  split.
  - apply (lerp_at_zero 0.1 0.7). reflexivity.
  - apply (lerp_at_zero (-1e308) 1e308). reflexivity.
Defined.

(** Between two equal finite endpoints [lerp] is constant, for every finite
    [t]. *)
Theorem lerp_equal_endpoints (a t : float) :
  is_finite a = true -> is_finite t = true ->
  (lerp a a t =? a)%float = true.
Proof.
  rewrite !is_finite_spec, eqb_spec. unfold lerp.
  rewrite add_spec, mul_spec, sub_spec. intros Ha Ht.
  rewrite (SF64sub_diag _ Ha).
  apply SF64add_zero_r; [|exact Ha]. now apply SF64mul_zero_l.
Qed.

Lemma lerp_equal_endpoints_witness : (lerp 0.3 0.3 0.8 =? 0.3)%float = true.
Proof. apply (lerp_equal_endpoints 0.3 0.8); reflexivity. Defined.

(** *** [formatPh] *)

Lemma key_4_5 : key 4.5 = Some (1, -50, 5066549580791808)%Z.
Proof. vm_compute. reflexivity. Qed.

Lemma key_5_5 : key 5.5 = Some (1, -50, 6192449487634432)%Z.
Proof. vm_compute. reflexivity. Qed.

Lemma key_6_5 : key 6.5 = Some (1, -50, 7318349394477056)%Z.
Proof. vm_compute. reflexivity. Qed.

Lemma key_7_5 : key 7.5 = Some (1, -50, 8444249301319680)%Z.
Proof. vm_compute. reflexivity. Qed.

#[local] Hint Rewrite key_4_5 key_5_5 key_6_5 key_7_5 : floatkeys.

Lemma formatPh_rank (toFixed : float -> nat -> string) (v : float) :
  Format.acidityRank (Format.label (Format.formatPh toFixed v))
  = if lt v 4.5 then 0%nat
    else if lt v 5.5 then 1%nat
    else if lt v 6.5 then 2%nat
    else if lt v 7.5 then 3%nat
    else 4%nat.
Proof.
  unfold Format.formatPh. cbn [Format.label].
  destruct (lt v 4.5), (lt v 5.5), (lt v 6.5), (lt v 7.5); reflexivity.
Qed.

(** The label never moves towards the acidic end when the pH grows. *)
Theorem formatPh_monotone (toFixed : float -> nat -> string) (v1 v2 : float) :
  (v1 <=? v2)%float = true ->
  (Format.acidityRank (Format.label (Format.formatPh toFixed v1))
   <= Format.acidityRank (Format.label (Format.formatPh toFixed v2)))%nat.
Proof.
  intro H. rewrite !formatPh_rank.
  repeat match goal with
    | |- context [if lt ?v ?c then _ else _] => destruct (lt v c) eqn:?
    end;
    first [lia | exfalso; float_order].
Qed.

Lemma formatPh_monotone_witness :
  (Format.acidityRank
     (Format.label (Format.formatPh (fun _ _ => "4.2"%string) 4.2))
   <= Format.acidityRank
        (Format.label (Format.formatPh (fun _ _ => "4.2"%string) 6.8)))%nat.
Proof.
  apply (formatPh_monotone (fun _ _ => "4.2"%string) 4.2 6.8). reflexivity.
Defined.

(** A pH that is NaN is labelled Alkaline: it is below none of the four
    thresholds. *)
Theorem formatPh_nan (toFixed : float -> nat -> string) (v : float) :
  is_nan v = true ->
  Format.label (Format.formatPh toFixed v) = "Alkaline"%string.
Proof.
  intro H. unfold Format.formatPh. cbn [Format.label].
  assert (A1 : lt v 4.5 = false) by float_order.
  assert (A2 : lt v 5.5 = false) by float_order.
  assert (A3 : lt v 6.5 = false) by float_order.
  assert (A4 : lt v 7.5 = false) by float_order.
  now rewrite A1, A2, A3, A4.
Qed.

Lemma formatPh_nan_witness :
  Format.label (Format.formatPh (fun _ _ => "NaN"%string) nan)
  = "Alkaline"%string.
Proof. apply (formatPh_nan (fun _ _ => "NaN"%string) nan). reflexivity. Defined.

End NumericFacts.

(** ** The [localStorage] helpers *)
Module StorageFacts.
Import StorageUtils.

Section Browser.

Variable isServer blocked : bool.
Variable accepts : LocalStorage.t -> string -> string -> bool.
Variable parse : string -> option JSON.value.
Variable stringify : JSON.value -> string.

Lemma get_depends_on_key
    (key : string) (d : JSON.value) (s s' : LocalStorage.t) :
  s key = s' key ->
  getLocalStorage isServer blocked parse key d s
  = getLocalStorage isServer blocked parse key d s'.
Proof.
  intro H. unfold getLocalStorage, LocalStorage.getItem. now rewrite H.
Qed.

(** What was written is read back: in a browser that lets the write through,
    a value whose text parses back to it is returned by the next read of the
    same key, and nothing is logged. *)
Theorem set_then_get
    (key : string) (value d : JSON.value) (store : LocalStorage.t) :
  isServer = false -> blocked = false ->
  accepts store key (stringify value) = true ->
  stringify value <> EmptyString ->
  parse (stringify value) = Some value ->
  snd (setLocalStorage isServer blocked accepts stringify key value store)
  = []
  /\ getLocalStorage isServer blocked parse key d
       (fst (setLocalStorage isServer blocked accepts stringify
               key value store))
     = value.
Proof.
  intros Hs Hb Ha Hne Hp. unfold setLocalStorage, getLocalStorage.
  rewrite Hs, Hb, Ha. simpl. split; [reflexivity|].
  unfold LocalStorage.getItem, LocalStorage.setItem.
  rewrite String.eqb_refl.
  destruct (stringify value) eqn:E; [congruence|]. now rewrite Hp.
Qed.

(** Writing or removing one key leaves what is read under every other key
    as it was, whether the operation succeeds or not. *)
Theorem other_keys_untouched
    (key key' : string) (value d : JSON.value) (store : LocalStorage.t) :
  key' <> key ->
  getLocalStorage isServer blocked parse key' d
    (fst (setLocalStorage isServer blocked accepts stringify key value store))
  = getLocalStorage isServer blocked parse key' d store
  /\ getLocalStorage isServer blocked parse key' d
       (fst (removeLocalStorage isServer blocked key store))
     = getLocalStorage isServer blocked parse key' d store.
Proof.
  intro Hne. apply String.eqb_neq in Hne.
  split; apply get_depends_on_key.
  - unfold setLocalStorage.
    destruct isServer; [reflexivity|].
    destruct (blocked || negb (accepts store key (stringify value)));
      [reflexivity|].
    simpl. unfold LocalStorage.setItem. now rewrite Hne.
  - unfold removeLocalStorage.
    destruct isServer; [reflexivity|]. destruct blocked; [reflexivity|].
    simpl. unfold LocalStorage.removeItem. now rewrite Hne.
Qed.

(** After a removal the key reads as the default, in every environment. *)
Theorem remove_then_get
    (key : string) (d : JSON.value) (store : LocalStorage.t) :
  getLocalStorage isServer blocked parse key d
    (fst (removeLocalStorage isServer blocked key store))
  = d.
Proof.
  unfold removeLocalStorage, getLocalStorage.
  destruct isServer; [reflexivity|]. destruct blocked; [reflexivity|].
  simpl. unfold LocalStorage.getItem, LocalStorage.removeItem.
  now rewrite String.eqb_refl.
Qed.

(** A read yields the default or a stored item that parsed; it yields the
    default whenever the item under the key does not parse. *)
Theorem get_default_or_parsed
    (key : string) (d : JSON.value) (store : LocalStorage.t) :
  (getLocalStorage isServer blocked parse key d store = d
   \/ exists item,
        store key = Some item
        /\ parse item
           = Some (getLocalStorage isServer blocked parse key d store))
  /\ (unparsable parse (store key) ->
      getLocalStorage isServer blocked parse key d store = d).
Proof.
  unfold getLocalStorage, LocalStorage.getItem. split.
  - destruct isServer; [now left|]. destruct blocked; [now left|].
    destruct (store key) as [[|c item]|] eqn:E; [now left| |now left].
    destruct (parse (String c item)) eqn:P; [|now left].
    right. now exists (String c item).
  - intros (s & Hs & Hne & Hp).
    destruct isServer; [reflexivity|]. destruct blocked; [reflexivity|].
    rewrite Hs. destruct s; [congruence|]. now rewrite Hp.
Qed.

End Browser.

(** Closed instances. *)
Definition oneCodec (s : string) : option JSON.value :=
  if String.eqb s "1" then Some (JSON.JNumber 1) else None.

Lemma set_then_get_witness :
  snd (setLocalStorage false false (fun _ _ _ => true) (fun _ => "1"%string)
         "aether_calibration" (JSON.JNumber 1) LocalStorage.empty) = []
  /\ getLocalStorage false false oneCodec "aether_calibration" JSON.JNull
       (fst (setLocalStorage false false (fun _ _ _ => true)
               (fun _ => "1"%string) "aether_calibration" (JSON.JNumber 1)
               LocalStorage.empty))
     = JSON.JNumber 1.
Proof.
  apply (set_then_get false false (fun _ _ _ => true) oneCodec
           (fun _ => "1"%string));
    (reflexivity || discriminate).
Defined.

Lemma other_keys_untouched_witness :
  getLocalStorage false false oneCodec "aether_neuro_brief" JSON.JNull
    (fst (setLocalStorage false false (fun _ _ _ => true)
            (fun _ => "1"%string) "aether_calibration" (JSON.JNumber 1)
            LocalStorage.empty))
  = getLocalStorage false false oneCodec "aether_neuro_brief" JSON.JNull
      LocalStorage.empty
  /\ getLocalStorage false false oneCodec "aether_neuro_brief" JSON.JNull
       (fst (removeLocalStorage false false "aether_calibration"
               LocalStorage.empty))
     = getLocalStorage false false oneCodec "aether_neuro_brief" JSON.JNull
         LocalStorage.empty.
Proof.
  apply (other_keys_untouched false false (fun _ _ _ => true) oneCodec
           (fun _ => "1"%string) "aether_calibration" "aether_neuro_brief").
  discriminate.
Defined.

Lemma get_default_or_parsed_witness :
  getLocalStorage false false oneCodec "aether_calibration" JSON.JNull
    (LocalStorage.setItem LocalStorage.empty "aether_calibration" "{oops")
  = JSON.JNull.
Proof.
  apply (get_default_or_parsed false false oneCodec "aether_calibration"
           JSON.JNull
           (LocalStorage.setItem LocalStorage.empty "aether_calibration"
              "{oops")).
  exists "{oops"%string. repeat split. discriminate.
Defined.

(** *** [handleExport] and a corrupt item *)

(** [handleExport] reads storage and parses the two stored items outside
    any [try]: it throws, and nothing is downloaded, exactly when the browser
    denies access to storage or one of the two items is a non-empty string
    that does not parse. *)
Theorem handleExport_fails_iff
    (blocked : bool) (parse : string -> option JSON.value)
    (getItem : string -> option string) (now : string)
    (s : ResultPage.State) :
  ResultPage.handleExport blocked parse getItem now s = None
  <-> blocked = true
      \/ unparsable parse (getItem "aether_calibration"%string)
      \/ unparsable parse (getItem "aether_neuro_brief"%string).
Proof.
  unfold ResultPage.handleExport, ResultPage.parseStored, unparsable.
  destruct blocked; [split; [now left | reflexivity]|].
  split.
  - intro H. right. revert H.
    destruct (getItem "aether_calibration"%string) as [[|c a]|] eqn:Ec.
    + destruct (getItem "aether_neuro_brief"%string) as [[|c' b]|] eqn:En;
        try discriminate.
      destruct (parse (String c' b)) eqn:P; [discriminate|].
      intros _. right. exists (String c' b). repeat split; congruence.
    + destruct (parse (String c a)) eqn:Pc.
      * destruct (getItem "aether_neuro_brief"%string) as [[|c' b]|] eqn:En;
          try discriminate.
        destruct (parse (String c' b)) eqn:P; [discriminate|].
        intros _. right. exists (String c' b). repeat split; congruence.
      * intros _. left. exists (String c a). repeat split; congruence.
    + destruct (getItem "aether_neuro_brief"%string) as [[|c' b]|] eqn:En;
        try discriminate.
      destruct (parse (String c' b)) eqn:P; [discriminate|].
      intros _. right. exists (String c' b). repeat split; congruence.
  - intros [Hb|[(x & Hx & Hne & Hp)|(x & Hx & Hne & Hp)]].
    + discriminate Hb.
    + rewrite Hx. destruct x; [congruence|]. now rewrite Hp.
    + rewrite Hx.
      destruct (match getItem "aether_calibration"%string with
                | Some (String _ _ as s0) => parse s0
                | _ => Some JSON.JNull
                end); [|reflexivity].
      destruct x; [congruence|]. now rewrite Hp.
Qed.

End StorageFacts.

(** ** The name of the exported file *)
Module DownloadFacts.
Import Download.

Lemma chars_app (a b : string) : chars (a ++ b) = chars a ++ chars b.
Proof.
  unfold chars. induction a as [|c a IH]; simpl; [reflexivity|].
  now rewrite IH.
Qed.

Lemma allChars_app (p : Ascii.ascii -> bool) (a b : string) :
  allChars p (a ++ b) = allChars p a && allChars p b.
Proof. unfold allChars. now rewrite chars_app, forallb_app. Qed.

Lemma toLower_plain_or_space (c : Ascii.ascii) :
  isUpper (toLower c) = false.
Proof. destruct c as [[] [] [] [] [] [] [] []]; reflexivity. Qed.

Lemma toLowerCase_no_upper (s : string) :
  allChars (fun c => negb (isUpper c)) (toLowerCase s) = true.
Proof.
  unfold allChars, chars. induction s as [|c s IH]; simpl; [reflexivity|].
  now rewrite toLower_plain_or_space, IH.
Qed.

Lemma replaceRuns_plain (inRun : bool) (s : string) :
  allChars (fun c => negb (isUpper c)) s = true ->
  allChars plain (replaceRuns inRun s) = true.
Proof.
  unfold allChars, chars. revert inRun.
  induction s as [|c s IH]; intros inRun H; simpl in *; [reflexivity|].
  apply andb_prop in H. destruct H as [Hc Hs].
  destruct (isWhitespace c) eqn:Hw.
  - destruct inRun; simpl; now apply IH.
  - simpl. unfold plain at 1. rewrite Hw, Hc. now apply IH.
Qed.

Lemma slug_plain (name : string) : allChars plain (slug name) = true.
Proof. apply replaceRuns_plain, toLowerCase_no_upper. Qed.

(** The file name of an export holds no whitespace and no upper-case
    letter, whatever the (ASCII) name of the formula. *)
Theorem downloadName_plain (f : Formula.t) :
  allChars isAscii (Formula.name f) = true ->
  allChars plain (downloadName f) = true.
Proof.
  intros _. unfold downloadName. rewrite !allChars_app, slug_plain.
  reflexivity.
Qed.

Lemma downloadName_plain_witness :
  allChars plain (downloadName ResultPage.sampleFormula) = true.
Proof. apply (downloadName_plain ResultPage.sampleFormula). reflexivity. Defined.

Lemma toLowerCase_plain (s : string) :
  allChars plain s = true -> toLowerCase s = s.
Proof.
  unfold allChars, chars. induction s as [|c s IH]; simpl; [reflexivity|].
  intro H. apply andb_prop in H. destruct H as [Hc Hs].
  rewrite (IH Hs). unfold toLower. unfold plain in Hc.
  destruct (isUpper c); [|reflexivity].
  rewrite andb_false_r in Hc. discriminate Hc.
Qed.

Lemma replaceRuns_plain_id (s : string) :
  allChars plain s = true -> replaceRuns false s = s.
Proof.
  unfold allChars, chars. induction s as [|c s IH]; simpl; [reflexivity|].
  intro H. apply andb_prop in H. destruct H as [Hc Hs].
  unfold plain in Hc. destruct (isWhitespace c); [discriminate Hc|].
  now rewrite (IH Hs).
Qed.

Lemma slug_plain_id (name : string) :
  allChars plain name = true -> slug name = name.
Proof.
  intro H. unfold slug, replaceWhitespace.
  now rewrite (toLowerCase_plain _ H), (replaceRuns_plain_id _ H).
Qed.

(** A name that is already free of whitespace and upper-case letters goes
    into the file name unchanged, and cleaning a name twice is cleaning it
    once. *)
Theorem downloadName_keeps_plain_names (f : Formula.t) :
  allChars isAscii (Formula.name f) = true ->
  (allChars plain (Formula.name f) = true ->
   downloadName f
   = ("aether-formula-" ++ Formula.name f ++ ".json")%string)
  /\ slug (slug (Formula.name f)) = slug (Formula.name f).
Proof.
  intros _. split.
  - intro H. unfold downloadName. now rewrite (slug_plain_id _ H).
  - apply slug_plain_id, slug_plain.
Qed.

Lemma downloadName_keeps_plain_names_witness :
  downloadName (named "zephyr") = "aether-formula-zephyr.json"%string.
Proof.
  apply (downloadName_keeps_plain_names (named "zephyr")); reflexivity.
Defined.

End DownloadFacts.

(** ** [throttle] and [debounce] *)
Module TimerFacts.
Import Timers.

#[local] Open Scope nat_scope.

Lemma run_app {A St : Type} (step : nat -> Event A -> St -> option St)
    (pre post : list (nat * Event A)) (clock : nat) (st st' : St) :
  run step clock (pre ++ post) st = Some st' ->
  exists clock' mid,
    run step clock pre st = Some mid /\ run step clock' post mid = Some st'.
Proof.
  revert clock st. induction pre as [|[t e] pre IH]; intros clock st H.
  - exists clock, st. split; [reflexivity|exact H].
  - simpl in *. destruct (clock <=? t); [|discriminate H].
    destruct (step t e st) as [st1|]; [|discriminate H].
    exact (IH _ _ H).
Qed.

(** *** [throttle] *)

Lemma quietAfterReturn_snoc {A : Type} (limit now : nat) (args : A)
    (returned : bool) (log : list (nat * A * bool)) :
  quietAfterReturn limit log ->
  Forall (fun e => snd e = true -> fst (fst e) + limit <= now) log ->
  quietAfterReturn limit (log ++ [(now, args, returned)]).
Proof.
  induction log as [|[[t a] r] log IH]; simpl; intros Hq Hf.
  - split; [constructor|exact I].
  - destruct Hq as [Hr Hq]. inversion Hf as [|? ? Ht Hf']; subst.
    simpl in Ht. split.
    + intro E. apply Forall_app. split; [exact (Hr E)|].
      constructor; [simpl; auto|constructor].
    + now apply IH.
Qed.

Lemma throttleStep_ok {A : Type} (limit clock now : nat)
    (e : Event (Invocation A)) (st st' : ThrottleState A) :
  clock <= now ->
  match e with Call c => plain c = true | TimerFires => True end ->
  throttleOk limit clock st ->
  throttleStep limit now e st = Some st' ->
  throttleOk limit now st'.
Proof.
  intros Hc Hplain [Hq Hi] H. unfold throttleOk in *.
  destruct e as [[args [|d during] returns]|]; simpl in H;
    try discriminate Hplain.
  - destruct (inThrottle st) eqn:Ht.
    + injection H as <-. rewrite Ht. now split.
    + destruct Hi as [Hr Hf].
      assert (Hnow : Forall (fun e => snd e = true
                                      -> fst (fst e) + limit <= now)
                       (passed st)).
      { eapply Forall_impl; [|exact Hf]. simpl. intros e He E.
        specialize (He E). lia. }
      destruct returns; injection H as <-; simpl.
      * split; [now apply quietAfterReturn_snoc|].
        exists (now + limit). rewrite Hr. split; [reflexivity|].
        apply Forall_app. split.
        -- eapply Forall_impl; [|exact Hnow]. simpl. intros e He E.
           specialize (He E). lia.
        -- constructor; [simpl; intros _; lia|constructor].
      * split; [now apply quietAfterReturn_snoc|].
        split; [exact Hr|]. apply Forall_app. split; [exact Hnow|].
        constructor; [simpl; discriminate|constructor].
  - destruct (resets st) as [|due rest] eqn:Hr; [discriminate H|].
    destruct (due <=? now) eqn:Hd; [|discriminate H].
    injection H as <-. simpl. apply Nat.leb_le in Hd.
    destruct (inThrottle st).
    + destruct Hi as (due' & E & Hf). injection E as <- <-.
      split; [exact Hq|]. split; [reflexivity|].
      eapply Forall_impl; [|exact Hf]. simpl. intros e He E.
      specialize (He E). lia.
    + destruct Hi as [E _]. discriminate E.
Qed.

Lemma throttle_run_ok {A : Type} (limit : nat)
    (trace : list (nat * Event (Invocation A))) (clock : nat)
    (st st' : ThrottleState A) :
  plainTrace trace ->
  throttleOk limit clock st ->
  run (throttleStep limit) clock trace st = Some st' ->
  exists clock', throttleOk limit clock' st'.
Proof.
  revert clock st.
  induction trace as [|[t e] trace IH]; intros clock st Hp Hok H.
  - injection H as <-. now exists clock.
  - simpl in H. destruct (clock <=? t) eqn:Hc; [|discriminate H].
    apply Nat.leb_le in Hc.
    destruct (throttleStep limit t e st) as [st1|] eqn:Hs; [|discriminate H].
    inversion Hp as [|? ? He Hp']; subst. simpl in He.
    exact (IH _ _ Hp' (throttleStep_ok _ _ _ _ _ _ Hc He Hok Hs) H).
Qed.

(** When [func] does not call the throttled function, no invocation of
    [func] is started within [limit] ms after one that returned. *)
Theorem throttle_spacing {A : Type} (limit : nat)
    (trace : list (nat * Event (Invocation A))) (st : ThrottleState A) :
  plainTrace trace ->
  run (throttleStep limit) 0 trace throttleStart = Some st ->
  quietAfterReturn limit (passed st).
Proof.
  intros Hp H.
  assert (Hok : throttleOk limit 0 (@throttleStart A)).
  { split; [exact I|]. simpl. split; [reflexivity|constructor]. }
  destruct (throttle_run_ok limit trace 0 _ _ Hp Hok H) as [clock' [Hq _]].
  exact Hq.
Qed.

Lemma throttle_spacing_witness :
  quietAfterReturn 100 [(0, 7, false); (50, 8, true); (160, 9, true)].
Proof.
  apply (throttle_spacing 100
           [(0, Call (Invoke 7 [] false)); (50, Call (Invoke 8 [] true));
            (120, Call (Invoke 6 [] true)); (150, TimerFires);
            (160, Call (Invoke 9 [] true)); (270, TimerFires)]
           (mkThrottle nat false [] [(0, 7, false); (50, 8, true);
                                     (160, 9, true)])).
  - repeat constructor.
  - reflexivity.
Defined.

(** The hypothesis on [func] is needed.  A [func] that throws does not
    close the throttle: the next call is passed on at once. *)
Lemma throwing_func_is_not_throttled :
  run (throttleStep 100) 0
    [(0, Call (Invoke 7 [] false)); (1, Call (Invoke 8 [] false))]
    throttleStart
  = Some (mkThrottle nat false [] [(0, 7, false); (1, 8, false)]).
Proof. reflexivity. Qed.

(** A [func] that calls the throttled function sets two timers; the second
    one reopens the throttle right after the next invocation. *)
Lemma reentrant_func_breaks_spacing :
  exists st,
    run (throttleStep 100) 0
      [(0, Call (Invoke 1 [Invoke 2 [] true] true)); (100, TimerFires);
       (100, Call (Invoke 3 [] true)); (100, TimerFires);
       (101, Call (Invoke 4 [] true))]
      throttleStart = Some st
    /\ passed st = [(0, 1, true); (0, 2, true); (100, 3, true);
                    (101, 4, true)].
Proof. eexists. split; reflexivity. Qed.

(** Induction on an invocation with the hypothesis for the calls made
    while [func] runs. *)
Lemma Invocation_nested_ind {A : Type} (P : Invocation A -> Prop)
    (step : forall args during returns,
        Forall P during -> P (Invoke args during returns))
    (c : Invocation A) : P c.
Proof.
  revert c. fix IH 1. intros [args during returns]. apply step.
  induction during as [|d during IHd]; constructor; [apply IH|exact IHd].
Qed.

Lemma callThrottled_eq {A : Type} (limit now : nat) (args : A)
    (during : list (Invocation A)) (returns : bool) (st : ThrottleState A) :
  callThrottled limit now (Invoke args during returns) st
  = if inThrottle st then st
    else
      let finished :=
        fold_left (fun s d => callThrottled limit now d s) during
          (mkThrottle A (inThrottle st) (resets st)
             (passed st ++ [(now, args, returns)])) in
      if returns then
        mkThrottle A true (resets finished ++ [now + limit]) (passed finished)
      else finished.
Proof. reflexivity. Qed.

(** A call only adds invocations, all of them at the time of the call and
    all of them among those the call can lead to. *)
Lemma callThrottled_passed {A : Type} (limit now : nat) (c : Invocation A) :
  forall st : ThrottleState A,
  exists more,
    passed (callThrottled limit now c st) = passed st ++ more
    /\ forall t a r, In (t, a, r) more -> t = now /\ In (a, r) (callsOf c).
Proof.
  induction c as [args during returns IH] using Invocation_nested_ind.
  intro st. rewrite callThrottled_eq. cbn [callsOf].
  destruct (inThrottle st).
  { exists []. rewrite app_nil_r. split; [reflexivity|]. intros t a r []. }
  cbv zeta.
  set (started := mkThrottle A false (resets st)
                    (passed st ++ [(now, args, returns)])).
  assert (Hfold : forall s : ThrottleState A,
             exists more,
               passed (fold_left (fun s d => callThrottled limit now d s)
                         during s) = passed s ++ more
               /\ forall t a r, In (t, a, r) more
                                -> t = now
                                   /\ In (a, r) (flat_map callsOf during)).
  { clear started. induction during as [|d during IHd]; intro s; simpl.
    - exists []. rewrite app_nil_r. split; [reflexivity|]. intros t a r [].
    - inversion IH as [|? ? Hd Hrest]; subst.
      destruct (Hd s) as (m1 & E1 & H1).
      destruct (IHd Hrest (callThrottled limit now d s)) as (m2 & E2 & H2).
      exists (m1 ++ m2). rewrite E2, E1, <- app_assoc.
      split; [reflexivity|]. intros t a r Hin.
      apply in_app_or in Hin. destruct Hin as [Hin|Hin].
      + destruct (H1 _ _ _ Hin) as [-> Hc]. split; [reflexivity|].
        apply in_or_app. now left.
      + destruct (H2 _ _ _ Hin) as [-> Hc]. split; [reflexivity|].
        apply in_or_app. now right. }
  destruct (Hfold started) as (more & E & Hin).
  exists ((now, args, returns) :: more). split.
  - destruct returns; cbn [passed]; rewrite E; unfold started;
      cbn [passed]; now rewrite <- app_assoc.
  - intros t a r [Eq|Hm].
    + injection Eq as <- <- <-. split; [reflexivity|now left].
    + destruct (Hin _ _ _ Hm) as [-> Hc]. split; [reflexivity|now right].
Qed.

(** The first call of an open throttle starts [func] before anything
    else. *)
Lemma callThrottled_open {A : Type} (limit now : nat) (args : A)
    (during : list (Invocation A)) (returns : bool) (st : ThrottleState A) :
  inThrottle st = false ->
  exists more,
    passed (callThrottled limit now (Invoke args during returns) st)
    = passed st ++ (now, args, returns) :: more.
Proof.
  intro Ho. rewrite callThrottled_eq, Ho. cbv zeta.
  set (started := mkThrottle A false (resets st)
                    (passed st ++ [(now, args, returns)])).
  assert (Hfold : forall s : ThrottleState A,
             exists more,
               passed (fold_left (fun s d => callThrottled limit now d s)
                         during s) = passed s ++ more).
  { induction during as [|d during IHd]; intro s; simpl.
    - exists []. now rewrite app_nil_r.
    - destruct (callThrottled_passed limit now d s) as (m1 & E1 & _).
      destruct (IHd (callThrottled limit now d s)) as (m2 & E2).
      exists (m1 ++ m2). now rewrite E2, E1, <- app_assoc. }
  destruct (Hfold started) as (more & E). exists more.
  destruct returns; cbn [passed]; rewrite E; unfold started;
    cbn [passed]; now rewrite <- app_assoc.
Qed.

Lemma throttle_run_passed {A : Type} (limit : nat)
    (trace : list (nat * Event (Invocation A))) (clock : nat)
    (st st' : ThrottleState A) :
  run (throttleStep limit) clock trace st = Some st' ->
  exists more,
    passed st' = passed st ++ more
    /\ forall t a r, In (t, a, r) more
                     -> exists c, In (t, Call c) trace /\ In (a, r) (callsOf c).
Proof.
  revert clock st. induction trace as [|[t e] trace IH]; intros clock st H.
  - injection H as <-. exists []. rewrite app_nil_r. split; [reflexivity|].
    intros t a r [].
  - simpl in H. destruct (clock <=? t); [|discriminate H].
    destruct (throttleStep limit t e st) as [st1|] eqn:Hs; [|discriminate H].
    destruct (IH _ _ H) as (more & Hp & Hin).
    destruct e as [c|]; simpl in Hs.
    + injection Hs as <-.
      destruct (callThrottled_passed limit t c st) as (m1 & E1 & H1).
      exists (m1 ++ more). rewrite Hp, E1, <- app_assoc.
      split; [reflexivity|]. intros t' a r Hm.
      apply in_app_or in Hm. destruct Hm as [Hm|Hm].
      * destruct (H1 _ _ _ Hm) as [-> Hc]. exists c. split; [now left|exact Hc].
      * destruct (Hin _ _ _ Hm) as (c' & Hc' & Ha). exists c'.
        split; [now right|exact Ha].
    + destruct (resets st) as [|due rest]; [discriminate Hs|].
      destruct (due <=? t); [|discriminate Hs].
      injection Hs as <-. simpl in Hp. exists more. split; [exact Hp|].
      intros t' a r Hm. destruct (Hin _ _ _ Hm) as (c' & Hc' & Ha).
      exists c'. split; [now right|exact Ha].
Qed.

(** A throttled function passes a call on at once or not at all, whatever
    [func] does: every invocation of [func] was started at the time of a
    call of the trace and is that call or one that [func] made while
    running for it; and the first call always goes through. *)
Theorem throttle_passes_calls {A : Type} (limit : nat)
    (trace : list (nat * Event (Invocation A))) (st : ThrottleState A) :
  run (throttleStep limit) 0 trace throttleStart = Some st ->
  (forall t a r, In (t, a, r) (passed st)
                 -> exists c, In (t, Call c) trace /\ In (a, r) (callsOf c))
  /\ (forall t a during r rest,
         trace = (t, Call (Invoke a during r)) :: rest ->
         exists more, passed st = (t, a, r) :: more).
Proof.
  intro H. split.
  - destruct (throttle_run_passed limit trace 0 _ _ H) as (more & Hp & Hin).
    simpl in Hp. rewrite Hp. exact Hin.
  - intros t a during r rest ->. cbn [run] in H.
    destruct (0 <=? t); [|discriminate H]. cbn [throttleStep] in H.
    destruct (callThrottled_open limit t a during r throttleStart eq_refl)
      as (m1 & E1).
    destruct (throttle_run_passed limit rest t _ _ H) as (more & Hp & _).
    rewrite E1 in Hp. simpl in Hp. now exists (m1 ++ more).
Qed.

Lemma throttle_passes_calls_witness :
  exists more,
    passed (mkThrottle nat false [] [(0, 7, false); (1, 8, true);
                                     (1, 5, true); (120, 9, true)])
    = (0, 7, false) :: more.
Proof.
  apply (proj2 (throttle_passes_calls 100
                  [(0, Call (Invoke 7 [] false));
                   (1, Call (Invoke 8 [Invoke 5 [] true; Invoke 4 [] true]
                              true));
                   (50, Call (Invoke 6 [] true)); (101, TimerFires);
                   (110, TimerFires); (120, Call (Invoke 9 [] true));
                   (230, TimerFires)]
                  (mkThrottle nat false [] [(0, 7, false); (1, 8, true);
                                            (1, 5, true); (120, 9, true)])
                  eq_refl)
           0 7 [] false
           [(1, Call (Invoke 8 [Invoke 5 [] true; Invoke 4 [] true] true));
            (50, Call (Invoke 6 [] true)); (101, TimerFires);
            (110, TimerFires); (120, Call (Invoke 9 [] true));
            (230, TimerFires)]).
  reflexivity.
Defined.

(** *** [debounce] *)

Lemma debounceStep_ok {A : Type} (wait now : nat) (e : Event A)
    (armed : option (nat * A)) (st st' : DebounceState A) :
  debounceOk wait armed st ->
  debounceStep wait now e st = Some st' ->
  debounceOk wait
    (match e with Call args => Some (now, args) | TimerFires => None end) st'
  /\ delivered st'
     = delivered st
       ++ match e, armed with
          | TimerFires, Some (_, args) => [(now, args)]
          | _, _ => []
          end
  /\ match e, armed with
     | TimerFires, Some (called, _) => called + wait <= now
     | TimerFires, None => False
     | _, _ => True
     end.
Proof.
  intros Hok H. destruct e as [args|]; simpl in H.
  - injection H as <-. simpl. rewrite app_nil_r.
    split; [|split; [reflexivity|exact I]].
    exists (nextId st). split; [reflexivity|].
    destruct armed as [[called a]|]; simpl in Hok.
    + destruct Hok as (id & -> & ->). simpl. now rewrite Nat.eqb_refl.
    + rewrite Hok. now destruct (timeout st).
  - destruct armed as [[called a]|]; simpl in Hok.
    + destruct Hok as (id & Ht & Hp). rewrite Hp in H.
      destruct (called + wait <=? now) eqn:Hd; [|discriminate H].
      injection H as <-. simpl. apply Nat.leb_le in Hd. auto.
    + rewrite Hok in H. discriminate H.
Qed.

Lemma debounce_run_delivers {A : Type} (wait : nat)
    (trace : list (nat * Event A)) (clock : nat)
    (armed : option (nat * A)) (st st' : DebounceState A) :
  debounceOk wait armed st ->
  run (debounceStep wait) clock trace st = Some st' ->
  delivered st' = delivered st ++ lastCallWins (option_map snd armed) trace.
Proof.
  revert clock armed st.
  induction trace as [|[t e] trace IH]; intros clock armed st Hok H.
  - injection H as <-. simpl. now rewrite app_nil_r.
  - simpl in H. destruct (clock <=? t); [|discriminate H].
    destruct (debounceStep wait t e st) as [st1|] eqn:Hs; [|discriminate H].
    destruct (debounceStep_ok wait t e armed st st1 Hok Hs)
      as (Hok1 & Hd & Hw).
    rewrite (IH _ _ _ Hok1 H), Hd, <- app_assoc.
    destruct e as [args|]; simpl.
    + reflexivity.
    + destruct armed as [[called a]|]; [reflexivity|contradiction].
Qed.

(** What reaches a debounced function is, at every timer, the arguments of
    the call just before it: of a burst of calls only the last one gets
    through, once. *)
Theorem debounce_last_call_wins {A : Type} (wait : nat)
    (trace : list (nat * Event A)) (st : DebounceState A) :
  run (debounceStep wait) 0 trace debounceStart = Some st ->
  delivered st = lastCallWins None trace.
Proof.
  intro H.
  exact (debounce_run_delivers wait trace 0 None debounceStart st eq_refl H).
Qed.

Lemma debounce_last_call_wins_witness :
  delivered (mkDebounce nat (Some 3) 4 [] [(400, 9)])
  = lastCallWins None
      [(0, Call 7); (50, Call 8); (90, Call 9); (400, TimerFires)].
Proof.
  apply (debounce_last_call_wins 300
           [(0, Call 7); (50, Call 8); (90, Call 9); (400, TimerFires)]).
  reflexivity.
Defined.

Lemma debounce_run_ok {A : Type} (wait : nat)
    (trace : list (nat * Event A)) (clock : nat)
    (armed : option (nat * A)) (st st' : DebounceState A) :
  debounceOk wait armed st ->
  run (debounceStep wait) clock trace st = Some st' ->
  exists armed', debounceOk wait armed' st'.
Proof.
  revert clock armed st.
  induction trace as [|[t e] trace IH]; intros clock armed st Hok H.
  - injection H as <-. now exists armed.
  - simpl in H. destruct (clock <=? t); [|discriminate H].
    destruct (debounceStep wait t e st) as [st1|] eqn:Hs; [|discriminate H].
    destruct (debounceStep_ok wait t e armed st st1 Hok Hs) as (Hok1 & _).
    exact (IH _ _ _ Hok1 H).
Qed.

(** A debounced function is never run sooner than [wait] ms after the call
    it delivers. *)
Theorem debounce_waits {A : Type} (wait : nat)
    (before after : list (nat * Event A)) (called fired : nat) (args : A)
    (st : DebounceState A) :
  run (debounceStep wait) 0
    (before ++ (called, Call args) :: (fired, TimerFires) :: after)
    debounceStart = Some st ->
  called + wait <= fired.
Proof.
  intro H. apply run_app in H. destruct H as (clock & mid & Hpre & H).
  destruct (debounce_run_ok wait before 0 None debounceStart mid eq_refl
              Hpre) as [armed Hok].
  cbn [run] in H. destruct (clock <=? called); [|discriminate H].
  destruct (debounceStep wait called (Call args) mid) as [st1|] eqn:Hs1;
    [|discriminate H].
  destruct (debounceStep_ok _ _ _ _ _ _ Hok Hs1) as (Hok1 & _).
  destruct (called <=? fired); [|discriminate H].
  destruct (debounceStep wait fired TimerFires st1) as [st2|] eqn:Hs2;
    [|discriminate H].
  destruct (debounceStep_ok _ _ _ _ _ _ Hok1 Hs2) as (_ & _ & Hw).
  exact Hw.
Qed.

Lemma debounce_waits_witness : 90 + 300 <= 400.
Proof.
  apply (debounce_waits 300 [(0, Call 7); (50, Call 8)] [] 90 400 9
           (mkDebounce nat (Some 3) 4 [] [(400, 9)])).
  reflexivity.
Defined.

End TimerFacts.

(** ** The captions of the metric tiles *)
Module TileFacts.
Import Download Tiles.

Lemma squeeze_trimStart (s : string) : squeeze (trimStart s) = squeeze s.
Proof.
  induction s as [|c s IH]; simpl; [reflexivity|].
  destruct (isWhitespace c) eqn:Hw; [exact IH|]. simpl. now rewrite Hw.
Qed.

Lemma squeeze_cons (c : Ascii.ascii) (rest : string) :
  squeeze (String c rest)
  = if isWhitespace c then squeeze rest else String c (squeeze rest).
Proof. reflexivity. Qed.

Lemma squeeze_trimEnd (s : string) : squeeze (trimEnd s) = squeeze s.
Proof.
  induction s as [|c s IH]; [reflexivity|].
  rewrite (squeeze_cons c s), <- IH. cbn [trimEnd].
  destruct (trimEnd s) as [|k kept].
  - destruct (isWhitespace c) eqn:Hw; simpl; now rewrite ?Hw.
  - now rewrite (squeeze_cons c (String k kept)).
Qed.

Lemma squeeze_spaceUpper (key : string) :
  allChars (fun c => negb (isWhitespace c)) key = true ->
  squeeze (spaceUpper key) = key.
Proof.
  unfold allChars, chars. induction key as [|c key IH]; simpl;
    [reflexivity|].
  intro H. apply andb_prop in H. destruct H as [Hc Hs].
  apply negb_true_iff in Hc.
  destruct (isUpper c); simpl; rewrite Hc, (IH Hs); reflexivity.
Qed.

Lemma trimStart_first (s : string) :
  notWhitespace (firstChar (trimStart s)) = true.
Proof.
  induction s as [|c s IH]; simpl; [reflexivity|].
  destruct (isWhitespace c) eqn:Hw; [exact IH|]. simpl. now rewrite Hw.
Qed.

Lemma trimEnd_first (s : string) :
  notWhitespace (firstChar s) = true ->
  notWhitespace (firstChar (trimEnd s)) = true.
Proof.
  destruct s as [|c s]; simpl; [reflexivity|]. intro H.
  destruct (trimEnd s); [|exact H].
  apply negb_true_iff in H. rewrite H. simpl. now rewrite H.
Qed.

Lemma trimEnd_last (s : string) :
  notWhitespace (lastChar (trimEnd s)) = true.
Proof.
  induction s as [|c s IH]; simpl; [reflexivity|].
  destruct (trimEnd s) as [|k kept] eqn:E.
  - destruct (isWhitespace c) eqn:Hw; simpl; now rewrite ?Hw.
  - exact IH.
Qed.

(** The caption of a tile is the key with spaces put in: for an (ASCII) key
    without whitespace, taking the whitespace out of the caption gives the
    key back, and the caption neither starts nor ends with whitespace. *)
Theorem tileLabel_keeps_key (key : string) :
  allChars isAscii key = true ->
  allChars (fun c => negb (isWhitespace c)) key = true ->
  squeeze (tileLabel key) = key
  /\ notWhitespace (firstChar (tileLabel key)) = true
  /\ notWhitespace (lastChar (tileLabel key)) = true.
Proof.
  intros _ H. unfold tileLabel, trim. split; [|split].
  - now rewrite squeeze_trimEnd, squeeze_trimStart, squeeze_spaceUpper.
  - apply trimEnd_first, trimStart_first.
  - apply trimEnd_last.
Qed.

Lemma tileLabel_keeps_key_witness :
  squeeze (tileLabel "ifraCompliance") = "ifraCompliance"%string
  /\ notWhitespace (firstChar (tileLabel "ifraCompliance")) = true
  /\ notWhitespace (lastChar (tileLabel "ifraCompliance")) = true.
Proof. apply (tileLabel_keeps_key "ifraCompliance"); reflexivity. Defined.

End TileFacts.
